(** * BatallaNaval: the browser client's state, placement and protocol helpers

    A shallow embedding of the JavaScript client of the repository
    (state.js, the two main-module files and the API module) and of the
    handshake snippet of the server's README, with the properties the
    specification states about them.

    Conventions of the embedding:
    - a JavaScript number that the code uses as an index, a length or a
      coordinate is an integer of [Z];
    - a JavaScript string is a [string] (its code units are 8-bit here,
      which covers every literal and every character the modelled code
      builds);
    - an object literal is a record, [null] is [None] or [JNull], and
      [undefined] is [JUndefined] in the values that messages carry;
    - a method that mutates [this] is a function from the old state to
      the new one. *)

From Stdlib Require Import ZArith List String Ascii Bool Lia QArith Qround.
From Stdlib Require Import DecimalString DecimalPos.
From Equations Require Import Equations.
Import ListNotations.

Local Open Scope string_scope.
Local Open Scope Z_scope.

(** ** Cells of the board *)

(** The object [{ x: ..., y: ... }] the client uses for a cell. *)
Record Pos : Type := mkPos { pos_x : Z; pos_y : Z }.

(** [Array.prototype.push] on the model of an array. *)
Definition push {A : Type} (arr : list A) (v : A) : list A := arr ++ [v].

(** The cell pushed by one iteration of the loop of
    [calculateShipPositions]. *)
Definition shipCell (startX startY : Z) (orientation : string) (i : Z) : Pos :=
  if String.eqb orientation "horizontal"
  then mkPos (startX + i) startY
  else mkPos startX (startY + i).

(** ** calculateShipPositions, first copy (src/unnamed/part_000, l.465) *)

Module Part000.

(** The loop [for (let i = 0; i < length; i++) { ... push ... }], entered
    with the current [i] and the array built so far. *)
Equations? calculateShipPositions_for
  (startX startY length : Z) (orientation : string)
  (i : Z) (positions : list Pos) : list Pos
  by wf (Z.to_nat (length - i)) lt :=
  calculateShipPositions_for startX startY length orientation i positions
    with Z_lt_dec i length => {
    | left _ :=
        calculateShipPositions_for startX startY length orientation (i + 1)
          (if String.eqb orientation "horizontal"
           then push positions (mkPos (startX + i) startY)
           else push positions (mkPos startX (startY + i)));
    | right _ := positions }.
Proof. lia. Qed.

Definition calculateShipPositions
  (startX startY length : Z) (orientation : string) : list Pos :=
  calculateShipPositions_for startX startY length orientation 0 [].

End Part000.

(** ** calculateShipPositions, second copy (src/unnamed/part_001, l.204) *)

Module Part001.

Equations? calculateShipPositions_for
  (startX startY length : Z) (orientation : string)
  (i : Z) (positions : list Pos) : list Pos
  by wf (Z.to_nat (length - i)) lt :=
  calculateShipPositions_for startX startY length orientation i positions
    with Z_lt_dec i length => {
    | left _ :=
        calculateShipPositions_for startX startY length orientation (i + 1)
          (if String.eqb orientation "horizontal"
           then push positions (mkPos (startX + i) startY)
           else push positions (mkPos startX (startY + i)));
    | right _ := positions }.
Proof. lia. Qed.

Definition calculateShipPositions
  (startX startY length : Z) (orientation : string) : list Pos :=
  calculateShipPositions_for startX startY length orientation 0 [].

End Part001.

(** The list the specification describes: the cells
    [(startX + i, startY)] for [i = 0 .. length - 1] when the orientation
    is ['horizontal'], and [(startX, startY + i)] otherwise. *)
Definition lineCells (startX startY length : Z) (orientation : string) : list Pos :=
  map (fun i => shipCell startX startY orientation (Z.of_nat i))
      (seq 0 (Z.to_nat length)).

(** ** Values carried by messages *)

(** The JavaScript values that travel in the messages of the client:
    [undefined], [null], numbers, strings and object literals (fields in
    the order the literal writes them). *)
#[local] Set Warnings "-register-all".
Inductive JsValue : Type :=
| JUndefined
| JNull
| JNum (n : Z)
| JStr (s : string)
| JObj (fields : list (string * JsValue)).
#[local] Set Warnings "register-all".

(** Property lookup [obj.key]; [None] is [undefined]. *)
Fixpoint lookupField (key : string) (fields : list (string * JsValue)) : option JsValue :=
  match fields with
  | [] => None
  | (k, v) :: rest => if String.eqb k key then Some v else lookupField key rest
  end.

Definition getField (key : string) (v : JsValue) : option JsValue :=
  match v with
  | JObj fields => lookupField key fields
  | _ => None
  end.

(** The value of the expression [obj.key], the [undefined] of a missing
    property included. *)
Definition prop (key : string) (v : JsValue) : JsValue :=
  match getField key v with
  | Some x => x
  | None => JUndefined
  end.

(** What the text of [JSON.stringify(v)] denotes: the value itself,
    except that a property whose value is [undefined] is left out of an
    object, at every depth. *)
Fixpoint jsonValue (v : JsValue) : JsValue :=
  match v with
  | JObj fields =>
      JObj ((fix properties (l : list (string * JsValue)) : list (string * JsValue) :=
               match l with
               | [] => []
               | (k, x) :: rest =>
                   match x with
                   | JUndefined => properties rest
                   | _ => (k, jsonValue x) :: properties rest
                   end
               end) fields)
  | _ => v
  end.

(** What a property with the value [v] becomes in the text: nothing for
    [undefined], and what [JSON.stringify] writes for [v] otherwise. *)
Definition wireField (v : JsValue) : option JsValue :=
  match v with
  | JUndefined => None
  | _ => Some (jsonValue v)
  end.

(** ** GameState (src/client/js/state.js) *)

(** An entry of [GameState.placement.ships]. *)
Record Ship : Type := mkShip {
  ship_id : string;
  ship_name : string;
  ship_type : string;
  ship_length : Z;
  ship_placed : bool;
  ship_orientation : string
}.

(** An entry of [GameState.placement.placedShips]: the object
    [{ ...ship, positions: positions, orientation: ... }]. *)
Record PlacedShip : Type := mkPlacedShip {
  placed_id : string;
  placed_name : string;
  placed_type : string;
  placed_length : Z;
  placed_placed : bool;
  placed_orientation : string;
  positions : list Pos
}.

Record Placement : Type := mkPlacement {
  selectedShip : option string;
  orientation : string;
  placedShips : list PlacedShip;
  ships : list Ship
}.

(** An element of a board row; [None] is the hole ([undefined]) that a
    write past the end of a JavaScript array leaves behind. *)
Definition Cell : Type := option string.

Record LogEntry : Type := mkLogEntry {
  log_message : string;
  log_type : string;
  log_timestamp : Z
}.

Record Game : Type := mkGame {
  currentTurn : string;
  moveCount : Z;
  yourShipsRemaining : Z;
  enemyShipsRemaining : Z;
  defenseBoard : list (list Cell);
  attackBoard : list (list Cell);
  combatLog : list LogEntry
}.

Record GameTimer : Type := mkGameTimer {
  startTime : option Z;
  endTime : option Z
}.

Record GameState : Type := mkGameState {
  currentScreen : string;
  playerName : string;
  playerId : JsValue;
  matchId : JsValue;
  boardSize : Z;
  placement : Placement;
  game : Game;
  gameTimer : GameTimer
}.

Definition SCREEN_START : string := "start".
Definition SCREEN_PLACEMENT : string := "placement".
Definition SCREEN_GAME : string := "game".
Definition SCREEN_GAMEOVER : string := "gameover".

(** The object literal of [game], written twice in state.js (the literal
    and [init]). *)
Definition freshGame : Game :=
  mkGame "" 0 5 5 [] [] [].

Definition freshGameTimer : GameTimer := mkGameTimer None None.

(** The object literal [const GameState = { ... }]: the state when the
    script is loaded. *)
Definition GameState0 : GameState :=
  mkGameState "start" "" JNull JNull 10
    (mkPlacement None "horizontal" []
       [ mkShip "carrier" "Portaaviones" "AIRCRAFT_CARRIER" 5 false "horizontal";
         mkShip "battleship" "Acorazado" "BATTLESHIP" 4 false "horizontal";
         mkShip "cruiser" "Crucero" "CRUISER" 3 false "horizontal";
         mkShip "destroyer" "Destructor" "DESTROYER" 3 false "horizontal";
         mkShip "submarine" "Submarino" "SUBMARINE" 2 false "horizontal" ])
    freshGame freshGameTimer.

(** Field updates, as assignments to [this.f] and [this.placement.f]. *)
Definition set_placement (s : GameState) (p : Placement) : GameState :=
  mkGameState (currentScreen s) (playerName s) (playerId s) (matchId s)
    (boardSize s) p (game s) (gameTimer s).

Definition set_game (s : GameState) (g : Game) : GameState :=
  mkGameState (currentScreen s) (playerName s) (playerId s) (matchId s)
    (boardSize s) (placement s) g (gameTimer s).

Definition set_gameTimer (s : GameState) (t : GameTimer) : GameState :=
  mkGameState (currentScreen s) (playerName s) (playerId s) (matchId s)
    (boardSize s) (placement s) (game s) t.

Definition set_currentScreen (s : GameState) (v : string) : GameState :=
  mkGameState v (playerName s) (playerId s) (matchId s)
    (boardSize s) (placement s) (game s) (gameTimer s).

Definition set_playerName (s : GameState) (v : string) : GameState :=
  mkGameState (currentScreen s) v (playerId s) (matchId s)
    (boardSize s) (placement s) (game s) (gameTimer s).

Definition set_playerId (s : GameState) (v : JsValue) : GameState :=
  mkGameState (currentScreen s) (playerName s) v (matchId s)
    (boardSize s) (placement s) (game s) (gameTimer s).

Definition set_matchId (s : GameState) (v : JsValue) : GameState :=
  mkGameState (currentScreen s) (playerName s) (playerId s) v
    (boardSize s) (placement s) (game s) (gameTimer s).

Definition set_orientation (p : Placement) (o : string) : Placement :=
  mkPlacement (selectedShip p) o (placedShips p) (ships p).

Definition set_selectedShip (p : Placement) (v : option string) : Placement :=
  mkPlacement v (orientation p) (placedShips p) (ships p).

Definition set_placedShips (p : Placement) (v : list PlacedShip) : Placement :=
  mkPlacement (selectedShip p) (orientation p) v (ships p).

Definition set_ships (p : Placement) (v : list Ship) : Placement :=
  mkPlacement (selectedShip p) (orientation p) (placedShips p) v.

Definition set_placed (sh : Ship) (b : bool) : Ship :=
  mkShip (ship_id sh) (ship_name sh) (ship_type sh) (ship_length sh) b
    (ship_orientation sh).

(** *** Built-ins the methods use *)

(** White space that [String.prototype.trim] strips, among the code
    units below 256: TAB, LF, VT, FF, CR, space and the no-break space. *)
Definition isWhiteSpace (c : ascii) : bool :=
  let n := Z.of_N (N_of_ascii c) in
  ((9 <=? n) && (n <=? 13)) || (n =? 32) || (n =? 160).

Fixpoint trimStart (s : string) : string :=
  match s with
  | EmptyString => EmptyString
  | String c rest => if isWhiteSpace c then trimStart rest else s
  end.

Definition reverseString (s : string) : string :=
  string_of_list_ascii (rev (list_ascii_of_string s)).

Definition trim (s : string) : string :=
  reverseString (trimStart (reverseString (trimStart s))).

(** [Array(n)]: an array of [n] holes, or a RangeError ([None]) when [n]
    is not an array length. *)
Definition js_Array (n : Z) : option (list Cell) :=
  if (0 <=? n) && (n <? 2 ^ 32) then Some (repeat None (Z.to_nat n)) else None.

(** [arr.fill(v)]: every element becomes [v]. *)
Definition fill {A B : Type} (arr : list A) (v : B) : list B :=
  map (fun _ => v) arr.

(** [arr[i]] for an integer [i]; [None] is [undefined]. *)
Definition js_index {A : Type} (arr : list A) (i : Z) : option A :=
  if i <? 0 then None else nth_error arr (Z.to_nat i).

(** [row[i] = v] on an array of cells, as far as its elements go: inside
    the array the element is replaced; past the end, for an [i] that is
    an array index (the last one is 2^32 - 2), the array grows and the
    cells in between are holes; an [i] that is no array index (negative,
    or 2^32 - 1 and more) creates an ordinary property and leaves the
    elements and the length as they are. *)
Definition js_assign (row : list Cell) (i : Z) (v : string) : list Cell :=
  if i <? 0 then row
  else if i <? Z.of_nat (List.length row)
       then firstn (Z.to_nat i) row ++ Some v :: skipn (S (Z.to_nat i)) row
       else if i <? 4294967295
            then row ++ repeat None (Z.to_nat i - List.length row) ++ [Some v]
            else row.

(** [board[y][x] = state], the row [board[y]] being present. *)
Definition assignCell (board : list (list Cell)) (x y : Z) (state : string)
  : list (list Cell) :=
  match js_index board y with
  | Some row =>
      firstn (Z.to_nat y) board ++ js_assign row x state
        :: skipn (S (Z.to_nat y)) board
  | None => board
  end.

(** *** Methods *)

(** [resetPlacement()] *)
Definition resetPlacement (s : GameState) : GameState :=
  let p1 := set_selectedShip (placement s) None in
  let p2 := set_orientation p1 "horizontal" in
  let p3 := set_placedShips p2 [] in
  let p4 := set_ships p3 (map (fun ship => set_placed ship false) (ships p3)) in
  set_placement s p4.

(** [init()] *)
Definition init (s : GameState) : GameState :=
  let s1 := set_currentScreen s SCREEN_START in
  let s2 := set_playerName s1 "" in
  let s3 := set_playerId s2 JNull in
  let s4 := set_matchId s3 JNull in
  let s5 := resetPlacement s4 in
  let s6 := set_game s5 freshGame in
  set_gameTimer s6 freshGameTimer.

(** [switchScreen(screenName)]; [targetExists] tells whether the document
    has an element with the id [screen-<screenName>]. *)
Definition switchScreen (targetExists : bool) (screenName : string) (s : GameState)
  : GameState :=
  if targetExists then set_currentScreen s screenName else s.

(** [setPlayerName(name)] *)
Definition setPlayerName (name : string) (s : GameState) : GameState :=
  set_playerName s (trim name).

(** [Array(this.boardSize).fill(null).map(() => Array(this.boardSize).fill('empty'))] *)
Definition emptyBoard (size : Z) : option (list (list Cell)) :=
  match js_Array size, js_Array size with
  | Some outer, Some inner =>
      Some (map (fun _ => fill inner (Some "empty")) (fill outer (@None string)))
  | _, _ => None
  end.

(** [initDefenseBoard()]; [None] when [Array] throws. *)
Definition initDefenseBoard (s : GameState) : option GameState :=
  match emptyBoard (boardSize s) with
  | Some board =>
      let g := game s in
      Some (set_game s (mkGame (currentTurn g) (moveCount g) (yourShipsRemaining g)
                          (enemyShipsRemaining g) board (attackBoard g) (combatLog g)))
  | None => None
  end.

(** [initAttackBoard()]; [None] when [Array] throws. *)
Definition initAttackBoard (s : GameState) : option GameState :=
  match emptyBoard (boardSize s) with
  | Some board =>
      let g := game s in
      Some (set_game s (mkGame (currentTurn g) (moveCount g) (yourShipsRemaining g)
                          (enemyShipsRemaining g) (defenseBoard g) board (combatLog g)))
  | None => None
  end.

(** [selectShip(shipId)] *)
Definition selectShip (shipId : option string) (s : GameState) : GameState :=
  set_placement s (set_selectedShip (placement s) shipId).

(** [rotateShip()] *)
Definition rotateShip (s : GameState) : GameState :=
  set_placement s
    (set_orientation (placement s)
       (if String.eqb (orientation (placement s)) "horizontal"
        then "vertical" else "horizontal")).

(** [ship.placed = true] on the object that [find] returned: the first
    entry of the array with that id is the one that changes. *)
Fixpoint markPlaced (shipId : string) (l : list Ship) : list Ship :=
  match l with
  | [] => []
  | sh :: rest =>
      if String.eqb (ship_id sh) shipId
      then set_placed sh true :: rest
      else sh :: markPlaced shipId rest
  end.

(** [placeShip(shipId, positions)] *)
Definition placeShip (shipId : string) (cells : list Pos) (s : GameState)
  : GameState :=
  let p := placement s in
  match find (fun sh => String.eqb (ship_id sh) shipId) (ships p) with
  | Some ship =>
      let ship' := set_placed ship true in
      let p1 := set_ships p (markPlaced shipId (ships p)) in
      let p2 := set_placedShips p1
                  (push (placedShips p1)
                     (mkPlacedShip (ship_id ship') (ship_name ship') (ship_type ship')
                        (ship_length ship') (ship_placed ship')
                        (orientation p1) cells)) in
      set_placement s p2
  | None => s
  end.

(** [allShipsPlaced()] *)
Definition allShipsPlaced (s : GameState) : bool :=
  forallb ship_placed (ships (placement s)).

(** [getSelectedShip()]; [None] is [null] or [undefined]. *)
Definition getSelectedShip (s : GameState) : option Ship :=
  match selectedShip (placement s) with
  | None => None
  | Some sel =>
      if String.eqb sel "" then None
      else find (fun sh => String.eqb (ship_id sh) sel) (ships (placement s))
  end.

(** [addCombatLog(message, type)]; [now] is the value of [new Date()]. *)
Definition addCombatLog (now : Z) (message type : string) (s : GameState)
  : GameState :=
  let g := game s in
  set_game s (mkGame (currentTurn g) (moveCount g) (yourShipsRemaining g)
                (enemyShipsRemaining g) (defenseBoard g) (attackBoard g)
                (push (combatLog g) (mkLogEntry message type now))).

(** [updateDefenseCell(x, y, state)] *)
Definition updateDefenseCell (x y : Z) (state : string) (s : GameState)
  : GameState :=
  let g := game s in
  set_game s (mkGame (currentTurn g) (moveCount g) (yourShipsRemaining g)
                (enemyShipsRemaining g) (assignCell (defenseBoard g) x y state)
                (attackBoard g) (combatLog g)).

(** [updateAttackCell(x, y, state)] *)
Definition updateAttackCell (x y : Z) (state : string) (s : GameState)
  : GameState :=
  let g := game s in
  set_game s (mkGame (currentTurn g) (moveCount g) (yourShipsRemaining g)
                (enemyShipsRemaining g) (defenseBoard g)
                (assignCell (attackBoard g) x y state) (combatLog g)).

(** [startGameTimer()] and [stopGameTimer()]; [now] is [new Date()]. *)
Definition startGameTimer (now : Z) (s : GameState) : GameState :=
  set_gameTimer s (mkGameTimer (Some now) (endTime (gameTimer s))).

Definition stopGameTimer (now : Z) (s : GameState) : GameState :=
  set_gameTimer s (mkGameTimer (startTime (gameTimer s)) (Some now)).

(** [reset()] *)
Definition reset (s : GameState) : GameState := init s.

(** *** Writes to GameState from the other modules *)

(** [GameState.matchId = message.gameId; GameState.playerId = message.playerId]
    (the handler of [API.findMatch]). *)
Definition storeMatch (gameId player : JsValue) (s : GameState) : GameState :=
  set_playerId (set_matchId s gameId) player.

(** The handler that [API.findMatch] registers for ['game_state']
    (part_001, l.593-608), as far as GameState goes: a message with the
    code 210 or 211 stores [message.gameId] and [message.playerId],
    whatever they are ([undefined] for a property that the message does
    not have); any other message stores nothing. *)
Definition findMatch_handler (message : JsValue) (s : GameState) : GameState :=
  match getField "code" message with
  | Some (JNum code) =>
      if (code =? 210) || (code =? 211)
      then storeMatch (prop "gameId" message) (prop "playerId" message) s
      else s
  | _ => s
  end.

(** [GameState.game.enemyShipsRemaining--] (handleAttackCell). *)
Definition decrEnemyShips (s : GameState) : GameState :=
  let g := game s in
  set_game s (mkGame (currentTurn g) (moveCount g) (yourShipsRemaining g)
                (enemyShipsRemaining g - 1) (defenseBoard g) (attackBoard g)
                (combatLog g)).

(** [GameState.game.moveCount++] (handleAttackCell). *)
Definition incrMoveCount (s : GameState) : GameState :=
  let g := game s in
  set_game s (mkGame (currentTurn g) (moveCount g + 1) (yourShipsRemaining g)
                (enemyShipsRemaining g) (defenseBoard g) (attackBoard g)
                (combatLog g)).

(** *** The states the client goes through *)

(** One call of a method of GameState, or one of the writes above. *)
Inductive step : GameState -> GameState -> Prop :=
| step_init s : step s (init s)
| step_switchScreen s b name : step s (switchScreen b name s)
| step_setPlayerName s name : step s (setPlayerName name s)
| step_initDefenseBoard s s' : initDefenseBoard s = Some s' -> step s s'
| step_initAttackBoard s s' : initAttackBoard s = Some s' -> step s s'
| step_selectShip s shipId : step s (selectShip shipId s)
| step_rotateShip s : step s (rotateShip s)
| step_placeShip s shipId cells : step s (placeShip shipId cells s)
| step_resetPlacement s : step s (resetPlacement s)
| step_addCombatLog s now message type : step s (addCombatLog now message type s)
| step_updateDefenseCell s x y state : step s (updateDefenseCell x y state s)
| step_updateAttackCell s x y state : step s (updateAttackCell x y state s)
| step_startGameTimer s now : step s (startGameTimer now s)
| step_stopGameTimer s now : step s (stopGameTimer now s)
| step_reset s : step s (reset s)
| step_storeMatch s gameId player : step s (storeMatch gameId player s)
| step_decrEnemyShips s : step s (decrEnemyShips s)
| step_incrMoveCount s : step s (incrMoveCount s).

(** The states reached from the object literal. *)
Inductive reachable : GameState -> Prop :=
| reachable_fresh : reachable GameState0
| reachable_step s s' : reachable s -> step s s' -> reachable s'.

(** The type tags and lengths of the fleet, in the order of
    [placement.ships]. *)
Definition fleet (s : GameState) : list (string * Z) :=
  map (fun sh => (ship_type sh, ship_length sh)) (ships (placement s)).

Definition standardFleet : list (string * Z) :=
  [ ("AIRCRAFT_CARRIER", 5); ("BATTLESHIP", 4); ("CRUISER", 3);
    ("DESTROYER", 3); ("SUBMARINE", 2) ].

(** What every method keeps: the board size, the fleet, and an
    orientation that is one of the two words. *)
Definition wellFormed (s : GameState) : Prop :=
  boardSize s = 10 /\
  fleet s = standardFleet /\
  (orientation (placement s) = "horizontal" \/ orientation (placement s) = "vertical").

(** ** The API module (src/unnamed/part_001, l.471-839) *)

(** *** Pure helpers *)

(** The first loop of [isValidPlacement]; [Some false] is the
    [return false] inside the loop, [None] the end of the loop. *)
Fixpoint isValidPlacement_bounds (cells : list Pos) (size : Z) : option bool :=
  match cells with
  | [] => None
  | pos :: rest =>
      if (pos_x pos <? 0) || (pos_x pos >=? size)
         || (pos_y pos <? 0) || (pos_y pos >=? size)
      then Some false
      else isValidPlacement_bounds rest size
  end.

(** The innermost loop, over the new positions, for one existing cell. *)
Fixpoint isValidPlacement_newPos (existingPos : Pos) (cells : list Pos) : option bool :=
  match cells with
  | [] => None
  | newPos :: rest =>
      if (pos_x existingPos =? pos_x newPos) && (pos_y existingPos =? pos_y newPos)
      then Some false
      else isValidPlacement_newPos existingPos rest
  end.

(** The loop over the cells of one existing ship. *)
Fixpoint isValidPlacement_existingPos (existing cells : list Pos) : option bool :=
  match existing with
  | [] => None
  | existingPos :: rest =>
      match isValidPlacement_newPos existingPos cells with
      | Some r => Some r
      | None => isValidPlacement_existingPos rest cells
      end
  end.

(** The loop over the existing ships. *)
Fixpoint isValidPlacement_ships (existingShips : list PlacedShip) (cells : list Pos)
  : option bool :=
  match existingShips with
  | [] => None
  | existingShip :: rest =>
      match isValidPlacement_existingPos (positions existingShip) cells with
      | Some r => Some r
      | None => isValidPlacement_ships rest cells
      end
  end.

(** [isValidPlacement(positions, existingShips, boardSize)] *)
Definition isValidPlacement (cells : list Pos) (existingShips : list PlacedShip)
  (size : Z) : bool :=
  match isValidPlacement_bounds cells size with
  | Some r => r
  | None =>
      match isValidPlacement_ships existingShips cells with
      | Some r => r
      | None => true
      end
  end.

Definition charCode (c : ascii) : Z := Z.of_N (N_of_ascii c).

(** [String.fromCharCode(n)]: the code unit [n mod 2^16]; the strings of
    the model hold the code units below 256. *)
Definition fromCharCode (n : Z) : ascii := ascii_of_N (Z.to_N (n mod 65536)).

(** The text of an integer number in a template literal (the decimal
    digits, which is what the code writes for an integer below 10^21). *)
Definition numberToString (n : Z) : string := NilZero.string_of_int (Z.to_int n).

(** [formatCoordinate(x, y)]. The sum [y + 1] is exact here; in the code
    it is a double, so the model is the code as long as [y + 1] stays
    within 2^53. *)
Definition formatCoordinate (x y : Z) : string :=
  let letter := String (fromCharCode (65 + x)) EmptyString in
  let number := y + 1 in
  letter ++ numberToString number.

Definition isDigit (c : ascii) : bool := (48 <=? charCode c) && (charCode c <=? 57).

(** The class [[A-J]] under the flag [i]. *)
Definition isLetterAJ (c : ascii) : bool :=
  ((65 <=? charCode c) && (charCode c <=? 74))
  || ((97 <=? charCode c) && (charCode c <=? 106)).

Fixpoint allDigits (s : string) : bool :=
  match s with
  | EmptyString => true
  | String c rest => isDigit c && allDigits rest
  end.

(** [coord.match(/^([A-J])(\d+)$/i)]: the two groups, or [None] for
    [null]. *)
Definition matchCoordinate (coord : string) : option (string * string) :=
  match coord with
  | String c (String d rest as digits) =>
      if isLetterAJ c && allDigits digits
      then Some (String c EmptyString, digits)
      else None
  | _ => None
  end.

(** [toUpperCase] on a string of ASCII letters. *)
Definition upperChar (c : ascii) : ascii :=
  if (97 <=? charCode c) && (charCode c <=? 122)
  then ascii_of_N (Z.to_N (charCode c - 32)) else c.

Fixpoint toUpperCase (s : string) : string :=
  match s with
  | EmptyString => EmptyString
  | String c rest => String (upperChar c) (toUpperCase rest)
  end.

(** [s.charCodeAt(0)] of a string that has a first character. *)
Definition charCodeAt0 (s : string) : Z :=
  match s with
  | String c _ => charCode c
  | EmptyString => 0
  end.

Fixpoint digitsValue (acc : Z) (s : string) : Z :=
  match s with
  | EmptyString => acc
  | String c rest => digitsValue (acc * 10 + (charCode c - 48)) rest
  end.

(** [parseInt(s)] of a string of decimal digits, which is what the
    second group of the pattern holds. The value is exact here; the code
    returns the nearest double, so the model is the code for the
    numbers up to 2^53 (every string of at most 15 digits). *)
Definition parseInt (s : string) : Z := digitsValue 0 s.

(** [parseCoordinate(coord)]; [None] is [null]. *)
Definition parseCoordinate (coord : string) : option Pos :=
  match matchCoordinate coord with
  | None => None
  | Some (m1, m2) =>
      let x := charCodeAt0 (toUpperCase m1) - 65 in
      let y := parseInt m2 - 1 in
      Some (mkPos x y)
  end.

(** *** Random placement *)

(** A computation that calls [Math.random()]: it reads the outcomes from
    a source (the [n]-th call returns [src n]) and counts the calls. An
    outcome is a rational; [Math.random()] returns one in [0, 1). The
    products with an integer are exact here; where the product of
    doubles rounds up to the next integer, [Math.floor] returns what it
    returns here for a slightly larger outcome, still below 1. *)
Definition Rand (A : Type) : Type := (nat -> Q) -> nat -> A * nat.

Definition ret {A : Type} (a : A) : Rand A := fun _ n => (a, n).

Definition bind {A B : Type} (m : Rand A) (k : A -> Rand B) : Rand B :=
  fun src n => let (a, n') := m src n in k a src n'.

Notation "x <- m ;; k" := (bind m (fun x => k))
  (at level 61, m at next level, right associativity).

Definition Math_random : Rand Q := fun src n => (src n, S n).

Definition Math_floor (q : Q) : Z := Qfloor q.

(** [arr.map(f)] for a callback that draws random numbers: the elements
    are visited from left to right. *)
Fixpoint mapRand {A B : Type} (f : A -> Rand B) (l : list A) : Rand (list B) :=
  match l with
  | [] => ret []
  | a :: rest => b <- f a ;; bs <- mapRand f rest ;; ret (b :: bs)
  end.

(** The loop [for (let i = 0; i < length; i++) body], entered with the
    current [i] and the state the body updates. *)
Equations? forUpTo {S : Type} (length : Z) (body : Z -> S -> S) (i : Z) (acc : S) : S
  by wf (Z.to_nat (length - i)) lt :=
  forUpTo length body i acc with Z_lt_dec i length => {
    | left _ := forUpTo length body (i + 1) (body i acc);
    | right _ := acc }.
Proof. lia. Qed.

(** [_generateRandomPositions(length, orientation, boardSize)] *)
Definition _generateRandomPositions (length : Z) (orientation : string) (size : Z)
  : Rand (list Pos) :=
  if String.eqb orientation "horizontal" then
    r1 <- Math_random ;;
    let startX := Math_floor (r1 * inject_Z (size - length)) in
    r2 <- Math_random ;;
    let startY := Math_floor (r2 * inject_Z size) in
    ret (forUpTo length (fun i cells => push cells (mkPos (startX + i) startY)) 0 [])
  else
    r1 <- Math_random ;;
    let startX := Math_floor (r1 * inject_Z size) in
    r2 <- Math_random ;;
    let startY := Math_floor (r2 * inject_Z (size - length)) in
    ret (forUpTo length (fun i cells => push cells (mkPos startX (startY + i))) 0 []).

(** An element of the array that [generateRandomPlacement] builds. *)
Record GeneratedShip : Type := mkGeneratedShip {
  gen_id : string;
  gen_type : string;
  gen_positions : list Pos;
  gen_orientation : string
}.

(** The value the promise of [generateRandomPlacement] resolves with. *)
Record PlacementResult : Type := mkPlacementResult {
  success : bool;
  result_ships : list GeneratedShip
}.

(** The callback that [generateRandomPlacement] maps over the ships, for
    the board size [size]. *)
Definition generateShip (size : Z) (ship : Ship) : Rand GeneratedShip :=
  r <- Math_random ;;
  let orientation := if negb (Qle_bool r (1 # 2)) then "horizontal" else "vertical" in
  cells <- _generateRandomPositions (ship_length ship) orientation size ;;
  ret (mkGeneratedShip (ship_id ship) (ship_type ship) cells orientation).

(** [generateRandomPlacement(boardSize = 10)], reading
    [GameState.placement.ships]; [None] is a missing argument. *)
Definition generateRandomPlacement (gs : GameState) (sizeArg : option Z)
  : Rand PlacementResult :=
  let size := match sizeArg with Some n => n | None => 10 end in
  generated <- mapRand (generateShip size) (ships (placement gs)) ;;
  ret (mkPlacementResult true generated).

(** *** Messages to the server *)

(** The handlers that the requests register, named by the request that
    creates the closure. *)
Inductive Handler : Type :=
| FindMatchHandler
| ShipPlacementHandler
| AttackHandler.

(** The part of the API object the requests use: the socket ([None] is
    [null], otherwise its [readyState]), the table of handlers, and the
    messages handed to [ws.send] so far (each is the text of
    [JSON.stringify]; the model keeps the value that the text denotes). *)
Record API : Type := mkAPI {
  ws : option Z;
  messageHandlers : list (string * Handler);
  sent : list JsValue
}.

Definition WebSocket_OPEN : Z := 1.

(** [send(message)] *)
Definition send (message : JsValue) (api : API) : API :=
  match ws api with
  | Some readyState =>
      if readyState =? WebSocket_OPEN
      then mkAPI (ws api) (messageHandlers api)
             (push (sent api) (jsonValue message))
      else api
  | None => api
  end.

Fixpoint lookupHandler (messageType : string) (l : list (string * Handler))
  : option Handler :=
  match l with
  | [] => None
  | (k, h) :: rest => if String.eqb k messageType then Some h else lookupHandler messageType rest
  end.

Fixpoint assignHandler (messageType : string) (h : Handler) (l : list (string * Handler))
  : list (string * Handler) :=
  match l with
  | [] => [(messageType, h)]
  | (k, h0) :: rest =>
      if String.eqb k messageType then (k, h) :: rest
      else (k, h0) :: assignHandler messageType h rest
  end.

(** [on(messageType, handler)] *)
Definition on (messageType : string) (handler : Handler) (api : API) : API :=
  mkAPI (ws api) (assignHandler messageType handler (messageHandlers api)) (sent api).

(** The body of the promise of [findMatch(playerName)], up to the
    message it sends; [now] is the value of [Date.now()]. *)
Definition findMatch (now : Z) (name : string) (api : API) : API :=
  let api1 := on "game_state" FindMatchHandler api in
  send (JObj [ ("type", JStr "join_game");
               ("playerId", JStr ("player_" ++ numberToString now));
               ("playerName", JStr name) ]) api1.

(** The body of the promise of [sendAttack(matchId, coordinate)]. *)
Definition sendAttack (gs : GameState) (matchIdArg : JsValue) (coordinate : JsValue)
  (api : API) : API :=
  let api1 := match lookupHandler "attack_result" (messageHandlers api) with
              | None => on "attack_result" AttackHandler api
              | Some _ => api
              end in
  send (JObj [ ("type", JStr "attack");
               ("gameId", matchId gs);
               ("playerId", playerId gs);
               ("coordinate", coordinate) ]) api1.

(** The request of [handleAttackCell] (src/unnamed/part_000, l.360) for
    a cell that was not attacked yet, [x] and [y] being
    [parseInt(cell.dataset.x)] and [parseInt(cell.dataset.y)]. *)
Definition handleAttackCell (gs : GameState) (x y : Z) (api : API) : API :=
  let coordinate := formatCoordinate x y in
  sendAttack gs (matchId gs) (JStr coordinate) api.

(** The messages a call hands to the socket. *)
Definition newMessages (before after : API) : list JsValue :=
  skipn (List.length (sent before)) (sent after).

(** ** The handshake of the server's README (src/server/README.md, l.262) *)

(** A Python [bytes] value is a list of integers in 0..255. *)
Definition bytes : Type := list Z.

(** [str.encode()] (UTF-8) on the code points below 256. *)
Definition encodeChar (c : ascii) : bytes :=
  let n := charCode c in
  if n <? 128 then [n]
  else [Z.lor 192 (Z.shiftr n 6); Z.lor 128 (Z.land n 63)].

Fixpoint encode (s : string) : bytes :=
  match s with
  | EmptyString => []
  | String c rest => (encodeChar c ++ encode rest)%list
  end.

(** [bytes.decode()] on ASCII bytes, which is what base64 text is. *)
Fixpoint decode (b : bytes) : string :=
  match b with
  | [] => EmptyString
  | n :: rest => String (ascii_of_N (Z.to_N n)) (decode rest)
  end.

(** *** hashlib.sha1 (FIPS 180-4) *)

Module hashlib.

Definition mask32 (z : Z) : Z := Z.land z 0xFFFFFFFF.

Definition rotl32 (x n : Z) : Z :=
  mask32 (Z.lor (Z.shiftl x n) (Z.shiftr x (32 - n))).

Definition wordOfBytes (b0 b1 b2 b3 : Z) : Z :=
  Z.lor (Z.lor (Z.shiftl b0 24) (Z.shiftl b1 16)) (Z.lor (Z.shiftl b2 8) b3).

Fixpoint wordsOfBytes (l : bytes) : list Z :=
  match l with
  | b0 :: b1 :: b2 :: b3 :: rest => wordOfBytes b0 b1 b2 b3 :: wordsOfBytes rest
  | _ => []
  end.

Definition bytesOfWord (w : Z) : bytes :=
  [ Z.land (Z.shiftr w 24) 255; Z.land (Z.shiftr w 16) 255;
    Z.land (Z.shiftr w 8) 255; Z.land w 255 ].

(** The message followed by the bit 1, zeros, and its length in bits on
    64 bits; the result is a whole number of 64-byte blocks. *)
Definition pad (msg : bytes) : bytes :=
  let len := Z.of_nat (List.length msg) in
  let zeros := (55 - len) mod 64 in
  let bits := 8 * len in
  (msg ++ [128] ++ repeat 0 (Z.to_nat zeros)
      ++ bytesOfWord (Z.shiftr bits 32) ++ bytesOfWord (mask32 bits))%list.

(** The last [n] words of the message schedule, the newest first. *)
Fixpoint extend (n : nat) (newestFirst : list Z) : list Z :=
  match n with
  | O => newestFirst
  | S n' =>
      let w := rotl32 (Z.lxor (Z.lxor (nth 2 newestFirst 0) (nth 7 newestFirst 0))
                              (Z.lxor (nth 13 newestFirst 0) (nth 15 newestFirst 0))) 1 in
      extend n' (w :: newestFirst)
  end.

Definition schedule (block : bytes) : list Z :=
  rev (extend 64 (rev (wordsOfBytes block))).

Definition state : Type := (Z * Z * Z * Z * Z)%type.

Definition round (st : state) (iw : Z * Z) : state :=
  let '(a, b, c, d, e) := st in
  let (i, w) := iw in
  let (f, k) :=
    if i <? 20 then
      (Z.lor (Z.land b c) (Z.land (Z.lxor b 0xFFFFFFFF) d), 0x5A827999)
    else if i <? 40 then
      (Z.lxor (Z.lxor b c) d, 0x6ED9EBA1)
    else if i <? 60 then
      (Z.lor (Z.lor (Z.land b c) (Z.land b d)) (Z.land c d), 0x8F1BBCDC)
    else
      (Z.lxor (Z.lxor b c) d, 0xCA62C1D6) in
  let temp := mask32 (rotl32 a 5 + f + e + k + w) in
  (temp, a, rotl32 b 30, c, d).

Definition indexed (l : list Z) : list (Z * Z) :=
  combine (map Z.of_nat (seq 0 (List.length l))) l.

Definition compress (h : state) (block : bytes) : state :=
  let '(h0, h1, h2, h3, h4) := h in
  let '(a, b, c, d, e) := fold_left round (indexed (schedule block)) h in
  (mask32 (h0 + a), mask32 (h1 + b), mask32 (h2 + c), mask32 (h3 + d),
   mask32 (h4 + e)).

Fixpoint blocks (n : nat) (l : bytes) : list bytes :=
  match n with
  | O => []
  | S n' => firstn 64 l :: blocks n' (skipn 64 l)
  end.

Definition initial : state :=
  (0x67452301, 0xEFCDAB89, 0x98BADCFE, 0x10325476, 0xC3D2E1F0).

(** [hashlib.sha1(msg).digest()] *)
Definition sha1 (msg : bytes) : bytes :=
  let padded := pad msg in
  let '(h0, h1, h2, h3, h4) :=
    fold_left compress (blocks (List.length padded / 64) padded) initial in
  (bytesOfWord h0 ++ bytesOfWord h1 ++ bytesOfWord h2 ++ bytesOfWord h3
    ++ bytesOfWord h4)%list.

End hashlib.

(** *** base64.b64encode (RFC 4648) *)

Module base64.

Definition alphabet : bytes :=
  encode "ABCDEFGHIJKLMNOPQRSTUVWXYZabcdefghijklmnopqrstuvwxyz0123456789+/".

Definition digit (i : Z) : Z := nth (Z.to_nat i) alphabet 0.

Definition padChar : Z := 61.

Fixpoint b64encode (l : bytes) : bytes :=
  match l with
  | [] => []
  | [a] =>
      [ digit (Z.shiftr a 2); digit (Z.shiftl (Z.land a 3) 4); padChar; padChar ]
  | [a; b] =>
      [ digit (Z.shiftr a 2);
        digit (Z.lor (Z.shiftl (Z.land a 3) 4) (Z.shiftr b 4));
        digit (Z.shiftl (Z.land b 15) 2); padChar ]
  | a :: b :: c :: rest =>
      digit (Z.shiftr a 2)
        :: digit (Z.lor (Z.shiftl (Z.land a 3) 4) (Z.shiftr b 4))
        :: digit (Z.lor (Z.shiftl (Z.land b 15) 2) (Z.shiftr c 6))
        :: digit (Z.land c 63)
        :: b64encode rest
  end.

End base64.

(** *** The function [handshake(sock, key)] *)

Definition CRLF : string :=
  String (ascii_of_nat 13) (String (ascii_of_nat 10) EmptyString).

Definition guid : string := "258EAFA5-E914-47DA-95CA-C5AB0DC85B11".

(** The local variable [accept]. *)
Definition handshake_accept (key : string) : string :=
  decode (base64.b64encode (hashlib.sha1 (encode (key ++ guid)))).

(** The local variable [response]. *)
Definition handshake_response (key : string) : string :=
  "HTTP/1.1 101 Switching Protocols" ++ CRLF
    ++ "Upgrade: websocket" ++ CRLF
    ++ "Connection: Upgrade" ++ CRLF
    ++ "Sec-WebSocket-Accept: " ++ handshake_accept key ++ CRLF ++ CRLF.

(** [handshake(sock, key)]; the socket is the bytes sent on it so far. *)
Definition handshake (sock : bytes) (key : string) : bytes :=
  (sock ++ encode (handshake_response key))%list.

(** *** SHA-1 and base64 as their standards define them *)

(** Modelled from the spec: the server's own handshake (network/server.py)
    and the functions SHA1 and base64 that the specification's formula
    names are not among the sources; SHA1 is written here from the text
    of FIPS 180-4 (operations on 32-bit words as arithmetic modulo 2^32,
    sections 2.2.2, 3.2, 4.1.1, 4.2.1, 5.1.1, 5.2.1, 5.3.1 and 6.1.2),
    independently of [hashlib.sha1] above. *)
Module FIPS180.

(** Addition of words is modulo 2^32. *)
Definition wordAdd (x y : Z) : Z := (x + y) mod 2 ^ 32.

(** [x << n] discards the left-most [n] bits; [x >> n] the right-most. *)
Definition SHL (n x : Z) : Z := (x * 2 ^ n) mod 2 ^ 32.
Definition SHR (n x : Z) : Z := x / 2 ^ n.

(** ROTL^n(x) = (x << n) or (x >> 32 - n). *)
Definition ROTL (n x : Z) : Z := Z.lor (SHL n x) (SHR (32 - n) x).

(** The bitwise complement of a word. *)
Definition NOT (x : Z) : Z := 2 ^ 32 - 1 - x.

Definition Ch (x y z : Z) : Z := Z.lxor (Z.land x y) (Z.land (NOT x) z).
Definition Parity (x y z : Z) : Z := Z.lxor (Z.lxor x y) z.
Definition Maj (x y z : Z) : Z :=
  Z.lxor (Z.lxor (Z.land x y) (Z.land x z)) (Z.land y z).

(** The function f_t and the constant K_t, 0 <= t <= 79. *)
Definition ft (t : nat) : Z -> Z -> Z -> Z :=
  if (t <=? 19)%nat then Ch
  else if (t <=? 39)%nat then Parity
  else if (t <=? 59)%nat then Maj
  else Parity.

Definition Kt (t : nat) : Z :=
  if (t <=? 19)%nat then 0x5a827999
  else if (t <=? 39)%nat then 0x6ed9eba1
  else if (t <=? 59)%nat then 0x8f1bbcdc
  else 0xca62c1d6.

(** Padding: to a message of [l] bits are appended the bit 1, then [k]
    zero bits, [k] the smallest non-negative solution of
    l + 1 + k = 448 (mod 512), then [l] on 64 bits. The message is made
    of bytes, so the bit 1 and the first seven zero bits are the byte
    10000000 and the other zero bits are (k - 7) / 8 zero bytes. *)
Definition zeroBits (l : Z) : Z := (448 - (l + 1)) mod 512.

Definition length64 (l : Z) : bytes :=
  map (fun i => (l / 2 ^ (8 * (7 - Z.of_nat i))) mod 256) (seq 0 8).

Definition padding (msg : bytes) : bytes :=
  let l := 8 * Z.of_nat (List.length msg) in
  (msg ++ [128] ++ repeat 0 (Z.to_nat ((zeroBits l - 7) / 8)) ++ length64 l)%list.

(** Parsing: the padded message is N blocks of 512 bits, and block i is
    sixteen words M_0 .. M_15 of 32 bits, the first byte of a word
    being its most significant. *)
Definition Mt (padded : bytes) (i t : nat) : Z :=
  let j := (64 * i + 4 * t)%nat in
  nth j padded 0 * 2 ^ 24 + nth (j + 1) padded 0 * 2 ^ 16
  + nth (j + 2) padded 0 * 2 ^ 8 + nth (j + 3) padded 0.

(** The message schedule: W_t = M_t for t <= 15, and
    W_t = ROTL^1(W_(t-3) xor W_(t-8) xor W_(t-14) xor W_(t-16)) after;
    [extendSchedule n Ws] appends the next [n] words to the words
    W_0 .. W_(t-1) of [Ws]. *)
Fixpoint extendSchedule (n : nat) (Ws : list Z) : list Z :=
  match n with
  | O => Ws
  | S n' =>
      let t := List.length Ws in
      let w := ROTL 1 (Z.lxor (Z.lxor (Z.lxor (nth (t - 3) Ws 0) (nth (t - 8) Ws 0))
                                      (nth (t - 14) Ws 0))
                              (nth (t - 16) Ws 0)) in
      extendSchedule n' (Ws ++ [w])
  end.

(** The eighty words W_0 .. W_79 of block i. *)
Definition Wt (padded : bytes) (i : nat) : list Z :=
  extendSchedule 64 (map (Mt padded i) (seq 0 16)).

Definition vars : Type := (Z * Z * Z * Z * Z)%type.

(** One turn of the loop on t:
    T = ROTL^5(a) + f_t(b, c, d) + e + K_t + W_t; e = d; d = c;
    c = ROTL^30(b); b = a; a = T. *)
Definition turn (Ws : list Z) (v : vars) (t : nat) : vars :=
  let '(a, b, c, d, e) := v in
  let T := wordAdd (wordAdd (wordAdd (wordAdd (ROTL 5 a) (ft t b c d)) e) (Kt t))
                   (nth t Ws 0) in
  (T, a, ROTL 30 b, c, d).

(** The hash value after block i, from the one before it. *)
Definition hashBlock (padded : bytes) (H : vars) (i : nat) : vars :=
  let '(h0, h1, h2, h3, h4) := H in
  let '(a, b, c, d, e) := fold_left (turn (Wt padded i)) (seq 0 80) H in
  (wordAdd a h0, wordAdd b h1, wordAdd c h2, wordAdd d h3, wordAdd e h4).

Definition H0 : vars :=
  (0x67452301, 0xefcdab89, 0x98badcfe, 0x10325476, 0xc3d2e1f0).

(** The four bytes of a word, the most significant first. *)
Definition wordBytes (x : Z) : bytes :=
  [ x / 2 ^ 24; (x / 2 ^ 16) mod 256; (x / 2 ^ 8) mod 256; x mod 256 ].

(** The message digest: the five words of the last hash value. *)
Definition SHA1 (msg : bytes) : bytes :=
  let padded := padding msg in
  let N := (List.length padded / 64)%nat in
  let '(h0, h1, h2, h3, h4) := fold_left (hashBlock padded) (seq 0 N) H0 in
  (wordBytes h0 ++ wordBytes h1 ++ wordBytes h2 ++ wordBytes h3
     ++ wordBytes h4)%list.

End FIPS180.

(** Modelled from the spec: base64, which the specification's formula
    names, written from the text of RFC 4648, section 4 (groups of 24
    bits cut into four 6-bit values, the alphabet as the table gives it,
    the padding of a last group of 8 or 16 bits), independently of
    [base64.b64encode] above. *)
Module RFC4648.

(** The character of a 6-bit value: A-Z, a-z, 0-9, + and /. *)
Definition alphabetChar (v : Z) : Z :=
  if v <? 26 then 65 + v
  else if v <? 52 then 97 + (v - 26)
  else if v <? 62 then 48 + (v - 52)
  else if v =? 62 then 43
  else 47.

(** The [k]-th 6-bit value of a 24-bit group, from the left. *)
Definition sextet (group : Z) (k : Z) : Z := (group / 64 ^ (3 - k)) mod 64.

Definition equalsSign : Z := 61.

Fixpoint base64 (l : bytes) : bytes :=
  match l with
  | [] => []
  | [a] =>
      let group := a * 65536 in
      [ alphabetChar (sextet group 0); alphabetChar (sextet group 1);
        equalsSign; equalsSign ]
  | [a; b] =>
      let group := a * 65536 + b * 256 in
      [ alphabetChar (sextet group 0); alphabetChar (sextet group 1);
        alphabetChar (sextet group 2); equalsSign ]
  | a :: b :: c :: rest =>
      let group := a * 65536 + b * 256 + c in
      alphabetChar (sextet group 0) :: alphabetChar (sextet group 1)
        :: alphabetChar (sextet group 2) :: alphabetChar (sextet group 3)
        :: base64 rest
  end.

End RFC4648.

(** A byte. *)
Definition isByte (n : Z) : Prop := 0 <= n < 256.

(** A word of 32 bits. *)
Definition isWord (n : Z) : Prop := 0 <= n < 2 ^ 32.

(** The five working variables, each a word. *)
Definition isVars (v : FIPS180.vars) : Prop :=
  let '(a, b, c, d, e) := v in
  isWord a /\ isWord b /\ isWord c /\ isWord d /\ isWord e.

(** Modelled from the spec: the accept token of the server's handshake
    (network/server.py, which is not among the sources), as the
    specification writes it on the bytes of the key:
    base64(SHA1(K + "258EAFA5-E914-47DA-95CA-C5AB0DC85B11")), with SHA1
    and base64 as their standards define them. *)
Definition specAcceptToken (K : bytes) : bytes :=
  RFC4648.base64
    (FIPS180.SHA1 (K ++ encode "258EAFA5-E914-47DA-95CA-C5AB0DC85B11")%list).

(** ** The board invariant of a generated fleet *)

Definition inGrid (size : Z) (p : Pos) : Prop :=
  0 <= pos_x p < size /\ 0 <= pos_y p < size.






(** A cell that one of the ships already holds. *)
Definition occupied (existingShips : list PlacedShip) (p : Pos) : Prop :=
  exists sh, In sh existingShips /\ In p (positions sh).

(** An outcome of [Math.random()] lies in [0, 1). *)
Definition validSource (src : nat -> Q) : Prop :=
  forall n, (0 <= src n)%Q /\ (src n < 1)%Q.

(** The fleet that [generateRandomPlacement(size)] resolves with. *)
Definition generatedFleet (gs : GameState) (size : Z) (src : nat -> Q)
  : list GeneratedShip :=
  result_ships (fst (generateRandomPlacement gs (Some size) src 0%nat)).

(** ** Sample inputs and the shapes the specification names *)

(** A state of the middle of a game, used to instantiate the
    properties: a name was entered, the carrier was placed vertically
    and the defense board was drawn. *)
Definition sampleBase : GameState :=
  placeShip "carrier" [mkPos 0 0; mkPos 0 1; mkPos 0 2; mkPos 0 3; mkPos 0 4]
    (rotateShip (selectShip (Some "carrier") (setPlayerName " Ana " GameState0))).

Definition sampleState : GameState :=
  match initDefenseBoard sampleBase with
  | Some s => s
  | None => sampleBase
  end.

(** A 10-by-10 grid of cells in the state ['empty']. *)
Definition emptyGrid10 : list (list Cell) := repeat (repeat (Some "empty") 10) 10.

(** A socket that is open, with nothing registered or sent yet. *)
Definition openAPI : API := mkAPI (Some WebSocket_OPEN) [] [].

(** The sample state once the server has answered the join request. *)
Definition playingState : GameState :=
  storeMatch (JStr "game_0") (JStr "player_1700000000000") sampleState.

(** The reply to a join request that the server's README documents
    (src/server/README.md, l.95-103): it carries a gameId and no
    playerId. *)
Definition joinReply : JsValue :=
  JObj [ ("type", JStr "game_state");
         ("code", JNum 210);
         ("gameId", JStr "game_0");
         ("message", JStr "Esperando oponente...");
         ("gameState", JStr "WAITING_FOR_OPPONENT") ].

(** The sample state once that reply has arrived: the match id is
    "game_0" and the player id is [undefined]. *)
Definition joinedState : GameState := findMatch_handler joinReply sampleState.

(** The shape the specification gives to a join request:
    [{type:"join", playerId, playerName}]. *)
Definition specJoinShape (m : JsValue) : Prop :=
  getField "type" m = Some (JStr "join")
  /\ (exists v, getField "playerId" m = Some v)
  /\ (exists v, getField "playerName" m = Some v).

(** The shape the specification gives to an attack request:
    [{type:"attack", matchId, playerId, coordinate:{x,y}}] with [x] and
    [y] integers in 0..9. *)
Definition specAttackShape (m : JsValue) : Prop :=
  getField "type" m = Some (JStr "attack")
  /\ (exists v, getField "matchId" m = Some v)
  /\ (exists v, getField "playerId" m = Some v)
  /\ (exists c x y, getField "coordinate" m = Some c
        /\ getField "x" c = Some (JNum x) /\ getField "y" c = Some (JNum y)
        /\ 0 <= x <= 9 /\ 0 <= y <= 9).

(** A byte that is an ASCII character. *)
Definition isAsciiByte (n : Z) : Prop := 0 <= n < 128.


(** Every call returns [Math.random() = 0.9]. *)
Definition highSource : nat -> Q := fun _ => (9 # 10)%Q.

(** The calls return 0, 0.1, ..., 0.9, 0, 0.1, ... in turn. *)
Definition cyclingSource : nat -> Q := fun n => (Z.of_nat (n mod 10) # 10)%Q.


(** ** More of GameState (src/client/js/state.js) *)

(** [s.padStart(targetLength, c)] for a one-character pad string. *)
Definition padStart (s : string) (targetLength : Z) (c : ascii) : string :=
  let len := Z.of_nat (String.length s) in
  if len <? targetLength
  then string_of_list_ascii (repeat c (Z.to_nat (targetLength - len))) ++ s
  else s.

(** [getGameDuration()]; the times are the millisecond values of the two
    [Date] objects, whose difference is what [endTime - startTime] gives.
    [Math.floor(a / b)] is the floor of the quotient and [%] takes the
    sign of the dividend. *)
Definition getGameDuration (s : GameState) : string :=
  match startTime (gameTimer s), endTime (gameTimer s) with
  | Some startT, Some endT =>
      let duration := (endT - startT) / 1000 in
      let minutes := duration / 60 in
      let seconds := Z.rem duration 60 in
      padStart (numberToString minutes) 2 "0" ++ ":"
        ++ padStart (numberToString seconds) 2 "0"
  | _, _ => "--:--"
  end.

(** [board[y][x]], the read that matches the write of
    [updateDefenseCell]; [None] is [undefined] (no such row or no such
    element). *)
Definition cellAt (board : list (list Cell)) (x y : Z) : option Cell :=
  match js_index board y with
  | Some row => js_index row x
  | None => None
  end.

(** ** The handlers of the main module (src/unnamed/part_000) *)

(** The listener of clicks on the placement board (l.226-257), for a
    click on the cell with [data-x = x] and [data-y = y]. *)
Definition placementBoard_click (x y : Z) (s : GameState) : GameState :=
  match getSelectedShip s with
  | None => s
  | Some ship =>
      if ship_placed ship then s
      else
        let cells := Part000.calculateShipPositions x y (ship_length ship)
                       (orientation (placement s)) in
        let isValid := isValidPlacement cells (placedShips (placement s))
                         (boardSize s) in
        if isValid
        then selectShip None (placeShip (ship_id ship) cells s)
        else s
  end.

(** What [handleRandomPlacement] does with the result once the promise
    has resolved (l.276-283). *)
Definition placeGenerated (result : PlacementResult) (s : GameState) : GameState :=
  if success result then
    fold_left
      (fun st ship =>
         match find (fun sh => String.eqb (ship_id sh) (gen_id ship))
                 (ships (placement st)) with
         | Some _ => placeShip (gen_id ship) (gen_positions ship) st
         | None => st
         end)
      (result_ships result) s
  else s.

(** [handleRandomPlacement()] (l.262-297) when no other event runs while
    it awaits the promise: the fleet is generated right after
    [resetPlacement()], from the [n]-th random number on. *)
Definition handleRandomPlacement (src : nat -> Q) (n : nat) (s : GameState)
  : GameState :=
  let s1 := resetPlacement s in
  let result := fst (generateRandomPlacement s1 (Some (boardSize s1)) src n) in
  placeGenerated result s1.

(** An element of [shipsData] in [submitShipPlacement] (part_001,
    l.649-653); [None] is the [undefined] that [positions[0]] gives for
    an empty array. *)
Record ShipDatum : Type := mkShipDatum {
  datum_type : string;
  datum_start : option Pos;
  datum_orientation : string
}.

(** [ships.map(ship => ({ type, start: ship.positions[0], orientation }))] *)
Definition shipsData (l : list PlacedShip) : list ShipDatum :=
  map (fun ship => mkShipDatum (placed_type ship) (hd_error (positions ship))
                     (placed_orientation ship)) l.

(** ** Reconnection (src/unnamed/part_001, l.482-545) *)

(** The fields of the API object that count the reconnections. *)
Record Reconnection : Type := mkReconnection {
  reconnectAttempts : Z;
  maxReconnectAttempts : Z;
  reconnectDelay : Z
}.

(** Their values in the object literal. *)
Definition Reconnection0 : Reconnection := mkReconnection 0 5 3000.

(** [_attemptReconnect()]; the boolean tells whether a call of [init()]
    was scheduled with [setTimeout]. *)
Definition _attemptReconnect (r : Reconnection) : Reconnection * bool :=
  if reconnectAttempts r <? maxReconnectAttempts r
  then (mkReconnection (reconnectAttempts r + 1) (maxReconnectAttempts r)
          (reconnectDelay r), true)
  else (r, false).

(** What the socket does to the counters: its listener of ['open'] sets
    [reconnectAttempts] to 0; its listener of ['close'] and the [catch]
    of a failed [init()] call [_attemptReconnect()]. *)
Inductive SocketEvent : Type :=
| SocketOpened
| SocketClosed
| InitRejected.

Definition onSocketEvent (r : Reconnection) (e : SocketEvent) : Reconnection :=
  match e with
  | SocketOpened =>
      mkReconnection 0 (maxReconnectAttempts r) (reconnectDelay r)
  | SocketClosed => fst (_attemptReconnect r)
  | InitRejected => fst (_attemptReconnect r)
  end.

(** The number of calls of [init()] that a run of events schedules. *)
Fixpoint scheduledReconnects (r : Reconnection) (events : list SocketEvent) : nat :=
  match events with
  | [] => 0%nat
  | e :: rest =>
      ((match e with
        | SocketOpened => 0
        | _ => if snd (_attemptReconnect r) then 1 else 0
        end) + scheduledReconnects (onSocketEvent r e) rest)%nat
  end.

(** ** Invariants of the placement *)

(** The ids of the ships of the literal. *)
Definition fleetIds : list string :=
  ["carrier"; "battleship"; "cruiser"; "destroyer"; "submarine"].

(** The fleet of the literal, whatever the placed flags are. *)
Definition shipsShape (s : GameState) : Prop :=
  boardSize s = 10
  /\ map (fun ship => set_placed ship false) (ships (placement s))
     = ships (placement GameState0).

(** A ship is flagged as placed exactly when [placedShips] has an entry
    with its id. *)
Definition placedConsistent (s : GameState) : Prop :=
  forall ship, In ship (ships (placement s)) ->
    (ship_placed ship = true
     <-> In (ship_id ship) (map placed_id (placedShips (placement s)))).

(** The entry holds the cells of a line that starts at its first cell,
    has the length of its ship and runs in its recorded orientation. *)
Definition entryIsLine (e : PlacedShip) : Prop :=
  exists x0 y0,
    hd_error (positions e) = Some (mkPos x0 y0)
    /\ positions e
       = Part000.calculateShipPositions x0 y0 (placed_length e) (placed_orientation e).

(** Two entries at different places of [placedShips] share no cell. *)
Definition placedDisjoint (l : list PlacedShip) : Prop :=
  forall i j a b p,
    i <> j -> nth_error l i = Some a -> nth_error l j = Some b ->
    In p (positions a) -> In p (positions b) -> False.

(** The board invariant of the ships placed so far. *)
Definition placedInvariant (s : GameState) : Prop :=
  Forall (fun e => Forall (inGrid (boardSize s)) (positions e))
         (placedShips (placement s))
  /\ placedDisjoint (placedShips (placement s))
  /\ Forall entryIsLine (placedShips (placement s))
  /\ NoDup (map placed_id (placedShips (placement s))).

(** The states of a placement done by hand: after [resetPlacement()],
    ships are selected, rotated and dropped on the board by clicks. *)
Inductive manuallyPlaced : GameState -> Prop :=
| manual_reset s : reachable s -> manuallyPlaced (resetPlacement s)
| manual_select s shipId :
    manuallyPlaced s -> manuallyPlaced (selectShip shipId s)
| manual_rotate s : manuallyPlaced s -> manuallyPlaced (rotateShip s)
| manual_click s x y :
    manuallyPlaced s -> manuallyPlaced (placementBoard_click x y s).

(** The entry that a click adds for [ship] at the cell (x, y). *)
Definition clickEntry (s : GameState) (ship : Ship) (x y : Z) : PlacedShip :=
  mkPlacedShip (ship_id ship) (ship_name ship) (ship_type ship) (ship_length ship)
    true (orientation (placement s))
    (Part000.calculateShipPositions x y (ship_length ship) (orientation (placement s))).

(** A placement done by hand: the carrier is dropped vertically at
    (0, 0), the battleship horizontally at (2, 3), and a click that
    would put the cruiser across the carrier is refused. *)
Definition manualSample : GameState :=
  placementBoard_click 0 2
    (selectShip (Some "cruiser")
       (placementBoard_click 2 3
          (rotateShip
             (selectShip (Some "battleship")
                (placementBoard_click 0 0
                   (rotateShip
                      (selectShip (Some "carrier") (resetPlacement sampleState)))))))).

(** The two decimal digits of a number below 100. *)
Definition twoDigits (k : Z) : string :=
  String (ascii_of_N (Z.to_N (48 + k / 10)))
    (String (ascii_of_N (Z.to_N (48 + k mod 10))) EmptyString).

(** * Properties *)

Example calc_000_h : Part000.calculateShipPositions 2 3 3 "horizontal"
                     = [mkPos 2 3; mkPos 3 3; mkPos 4 3].
Proof. reflexivity. Qed.

Example calc_001_v : Part001.calculateShipPositions 2 3 3 "vertical"
                     = [mkPos 2 3; mkPos 2 4; mkPos 2 5].
Proof. reflexivity. Qed.

(** ** The two copies of calculateShipPositions *)

Lemma lineCells_from (startX startY : Z) (orientation : string) (n : nat) (i : Z) :
  map (fun k => shipCell startX startY orientation (i + Z.of_nat k)) (seq 0 (S n))
  = shipCell startX startY orientation i
      :: map (fun k => shipCell startX startY orientation (i + 1 + Z.of_nat k)) (seq 0 n).
Proof.
  cbn [seq map]. rewrite Z.add_0_r. f_equal.
  rewrite <- seq_shift, map_map. apply map_ext. intros k.
  f_equal. lia.
Qed.

Lemma push_shipCell (startX startY : Z) (orientation : string) (i : Z) (acc : list Pos) :
  (if String.eqb orientation "horizontal"
   then push acc (mkPos (startX + i) startY)
   else push acc (mkPos startX (startY + i)))
  = push acc (shipCell startX startY orientation i).
Proof. unfold shipCell. destruct (String.eqb orientation "horizontal"); reflexivity. Qed.

Lemma Part000_for_spec (startX startY length : Z) (orientation : string) (n : nat) :
  forall i acc, Z.to_nat (length - i) = n ->
    Part000.calculateShipPositions_for startX startY length orientation i acc
    = (acc ++ map (fun k => shipCell startX startY orientation (i + Z.of_nat k))
                  (seq 0 n))%list.
Proof.
  induction n as [|n IH]; intros i acc Hn;
    rewrite Part000.calculateShipPositions_for_equation_1;
    destruct (Z_lt_dec i length) as [Hlt|Hge]; cbn.
  - lia.
  - rewrite app_nil_r. reflexivity.
  - rewrite push_shipCell, IH by lia. unfold push.
    rewrite <- app_assoc. cbn [app]. rewrite <- lineCells_from. reflexivity.
  - lia.
Qed.

Lemma Part001_for_spec (startX startY length : Z) (orientation : string) (n : nat) :
  forall i acc, Z.to_nat (length - i) = n ->
    Part001.calculateShipPositions_for startX startY length orientation i acc
    = (acc ++ map (fun k => shipCell startX startY orientation (i + Z.of_nat k))
                  (seq 0 n))%list.
Proof.
  induction n as [|n IH]; intros i acc Hn;
    rewrite Part001.calculateShipPositions_for_equation_1;
    destruct (Z_lt_dec i length) as [Hlt|Hge]; cbn.
  - lia.
  - rewrite app_nil_r. reflexivity.
  - rewrite push_shipCell, IH by lia. unfold push.
    rewrite <- app_assoc. cbn [app]. rewrite <- lineCells_from. reflexivity.
  - lia.
Qed.

(** C9. The two copies of [calculateShipPositions] are extensionally
    equal: for every start cell, every length that is at least 0 and
    every orientation both return the same list, which holds the cells
    [(startX + i, startY)] for [i = 0 .. length - 1] when the orientation
    is ['horizontal'] and the cells [(startX, startY + i)] otherwise. *)
Theorem calculateShipPositions_copies_agree
  (startX startY length : Z) (orientation : string) (Hlen : 0 <= length) :
  Part000.calculateShipPositions startX startY length orientation
  = Part001.calculateShipPositions startX startY length orientation
  /\ Part000.calculateShipPositions startX startY length orientation
     = lineCells startX startY length orientation
  /\ List.length (lineCells startX startY length orientation) = Z.to_nat length
  /\ forall i, 0 <= i < length ->
       nth_error (lineCells startX startY length orientation) (Z.to_nat i)
       = Some (if String.eqb orientation "horizontal"
               then mkPos (startX + i) startY
               else mkPos startX (startY + i)).
Proof.
  unfold Part000.calculateShipPositions, Part001.calculateShipPositions.
  rewrite (Part000_for_spec startX startY length orientation (Z.to_nat length))
    by (f_equal; lia).
  rewrite (Part001_for_spec startX startY length orientation (Z.to_nat length))
    by (f_equal; lia).
  cbn [app Z.add]. unfold lineCells.
  repeat split.
  - rewrite length_map, length_seq. reflexivity.
  - intros i Hi.
    rewrite nth_error_map, nth_error_seq.
    destruct (Nat.ltb_spec (Z.to_nat i) (Z.to_nat length)) as [_|Hbad]; [|lia].
    cbn. rewrite Z2Nat.id by lia. reflexivity.
Qed.

Lemma calculateShipPositions_copies_agree_witness :
  0 <= 3
  /\ Part000.calculateShipPositions 1 2 3 "vertical"
     = Part001.calculateShipPositions 1 2 3 "vertical"
  /\ Part000.calculateShipPositions 1 2 3 "vertical"
     = [mkPos 1 2; mkPos 1 3; mkPos 1 4].
Proof.
  split; [lia|].
  destruct (calculateShipPositions_copies_agree 1 2 3 "vertical") as (H1 & H2 & _).
  - lia.
  - split; [exact H1 | exact H2].
Defined.

(** ** isValidPlacement *)

Lemma isValidPlacement_bounds_None (cells : list Pos) (size : Z) :
  isValidPlacement_bounds cells size = None
  <-> forall p, In p cells -> 0 <= pos_x p < size /\ 0 <= pos_y p < size.
Proof.
  induction cells as [|pos rest IH]; cbn.
  - split; [intros _ p [] | reflexivity].
  - destruct ((pos_x pos <? 0) || (pos_x pos >=? size)
              || (pos_y pos <? 0) || (pos_y pos >=? size)) eqn:E.
    + split; [discriminate|]. intros H.
      destruct (H pos (or_introl eq_refl)) as [Hx Hy].
      rewrite !orb_true_iff, !Z.ltb_lt, !Z.geb_le in E. lia.
    + rewrite IH. rewrite !orb_false_iff, !Z.ltb_ge in E.
      destruct E as [[[E1 E2] E3] E4].
      rewrite Z.geb_leb, Z.leb_gt in E2, E4.
      split.
      * intros H p [<-|Hp]; [lia | auto].
      * intros H p Hp. apply H. now right.
Qed.

Lemma isValidPlacement_bounds_result (cells : list Pos) (size : Z) (r : bool) :
  isValidPlacement_bounds cells size = Some r -> r = false.
Proof.
  induction cells as [|pos rest IH]; cbn; [discriminate|].
  destruct (_ || _); [congruence | exact IH].
Qed.

Lemma isValidPlacement_newPos_None (q : Pos) (cells : list Pos) :
  isValidPlacement_newPos q cells = None
  <-> forall p, In p cells -> ~ (pos_x q = pos_x p /\ pos_y q = pos_y p).
Proof.
  induction cells as [|newPos rest IH]; cbn.
  - split; [intros _ p [] | reflexivity].
  - destruct ((pos_x q =? pos_x newPos) && (pos_y q =? pos_y newPos)) eqn:E.
    + split; [discriminate|]. intros H. exfalso.
      rewrite andb_true_iff, !Z.eqb_eq in E.
      exact (H newPos (or_introl eq_refl) E).
    + rewrite IH. rewrite andb_false_iff, !Z.eqb_neq in E. split.
      * intros H p [<-|Hp]; [tauto | auto].
      * intros H p Hp. apply H. now right.
Qed.

Lemma isValidPlacement_newPos_result (q : Pos) (cells : list Pos) (r : bool) :
  isValidPlacement_newPos q cells = Some r -> r = false.
Proof.
  induction cells as [|newPos rest IH]; cbn; [discriminate|].
  destruct (_ && _); [congruence | exact IH].
Qed.

Lemma isValidPlacement_existingPos_None (existing cells : list Pos) :
  isValidPlacement_existingPos existing cells = None
  <-> forall q p, In q existing -> In p cells ->
        ~ (pos_x q = pos_x p /\ pos_y q = pos_y p).
Proof.
  induction existing as [|q0 rest IH]; cbn.
  - split; [intros _ q p [] | reflexivity].
  - destruct (isValidPlacement_newPos q0 cells) eqn:E.
    + split; [discriminate|]. intros H.
      assert (N : isValidPlacement_newPos q0 cells = None)
        by (apply isValidPlacement_newPos_None; intros p Hp; apply H; auto).
      congruence.
    + rewrite IH. pose proof (proj1 (isValidPlacement_newPos_None _ _) E) as E'. split.
      * intros H q p [<-|Hq] Hp; [apply E'; exact Hp | apply H; assumption].
      * intros H q p Hq Hp. apply H; auto.
Qed.

Lemma isValidPlacement_existingPos_result (existing cells : list Pos) (r : bool) :
  isValidPlacement_existingPos existing cells = Some r -> r = false.
Proof.
  induction existing as [|q0 rest IH]; cbn; [discriminate|].
  destruct (isValidPlacement_newPos q0 cells) eqn:E; [|exact IH].
  intros [= <-]. eapply isValidPlacement_newPos_result; eassumption.
Qed.

Lemma isValidPlacement_ships_None (existingShips : list PlacedShip) (cells : list Pos) :
  isValidPlacement_ships existingShips cells = None
  <-> forall sh q p, In sh existingShips -> In q (positions sh) -> In p cells ->
        ~ (pos_x q = pos_x p /\ pos_y q = pos_y p).
Proof.
  induction existingShips as [|sh0 rest IH]; cbn.
  - split; [intros _ sh q p [] | reflexivity].
  - destruct (isValidPlacement_existingPos (positions sh0) cells) eqn:E.
    + split; [discriminate|]. intros H.
      assert (N : isValidPlacement_existingPos (positions sh0) cells = None)
        by (apply isValidPlacement_existingPos_None; intros q p Hq Hp;
            apply (H sh0); auto).
      congruence.
    + rewrite IH. pose proof (proj1 (isValidPlacement_existingPos_None _ _) E) as E'. split.
      * intros H sh q p [<-|Hsh] Hq Hp; [apply E'; assumption | eapply H; eassumption].
      * intros H sh q p Hsh Hq Hp. apply (H sh); auto.
Qed.

Lemma isValidPlacement_ships_result (existingShips : list PlacedShip)
  (cells : list Pos) (r : bool) :
  isValidPlacement_ships existingShips cells = Some r -> r = false.
Proof.
  induction existingShips as [|sh0 rest IH]; cbn; [discriminate|].
  destruct (isValidPlacement_existingPos (positions sh0) cells) eqn:E; [|exact IH].
  intros [= <-]. eapply isValidPlacement_existingPos_result; eassumption.
Qed.

Lemma Pos_coordinates (p q : Pos) :
  q = p <-> pos_x q = pos_x p /\ pos_y q = pos_y p.
Proof.
  destruct p, q; cbn. split.
  - intros [= -> ->]. auto.
  - intros [-> ->]. reflexivity.
Qed.

Lemma Pos_eq_dec (p q : Pos) : {p = q} + {p <> q}.
Proof. decide equality; apply Z.eq_dec. Defined.

Lemma inGrid_dec (size : Z) (p : Pos) : {inGrid size p} + {~ inGrid size p}.
Proof.
  unfold inGrid.
  destruct (Z_le_dec 0 (pos_x p)), (Z_lt_dec (pos_x p) size),
    (Z_le_dec 0 (pos_y p)), (Z_lt_dec (pos_y p) size);
    (left; lia) || (right; lia).
Defined.

Lemma occupied_dec (existingShips : list PlacedShip) (p : Pos) :
  {occupied existingShips p} + {~ occupied existingShips p}.
Proof.
  destruct (Exists_dec (fun sh => In p (positions sh)) existingShips) as [E|E].
  - intros sh. apply in_dec, Pos_eq_dec.
  - left. apply Exists_exists in E. exact E.
  - right. intros O. apply E, Exists_exists. exact O.
Defined.

Lemma isValidPlacement_true (cells : list Pos) (existingShips : list PlacedShip)
  (size : Z) :
  isValidPlacement cells existingShips size = true
  <-> forall p, In p cells -> inGrid size p /\ ~ occupied existingShips p.
Proof.
  unfold isValidPlacement, inGrid, occupied.
  destruct (isValidPlacement_bounds cells size) as [r|] eqn:Eb.
  - rewrite (isValidPlacement_bounds_result _ _ _ Eb). split; [discriminate|].
    intros H.
    assert (N : isValidPlacement_bounds cells size = None)
      by (apply isValidPlacement_bounds_None; intros p Hp; apply H; exact Hp).
    congruence.
  - pose proof (proj1 (isValidPlacement_bounds_None _ _) Eb) as Hb.
    destruct (isValidPlacement_ships existingShips cells) as [r|] eqn:Es.
    + rewrite (isValidPlacement_ships_result _ _ _ Es). split; [discriminate|].
      intros H.
      assert (N : isValidPlacement_ships existingShips cells = None).
      { apply isValidPlacement_ships_None. intros sh q p Hsh Hq Hp Hqp.
        apply Pos_coordinates in Hqp. subst q.
        apply (proj2 (H p Hp)). exists sh. auto. }
      congruence.
    + pose proof (proj1 (isValidPlacement_ships_None _ _) Es) as Hs.
      split; [intros _ | reflexivity].
      intros p Hp. split; [apply Hb; exact Hp|].
      intros (sh & Hsh & Hq).
      apply (Hs sh p p Hsh Hq Hp). auto.
Qed.

(** C1. For every list of candidate positions, every list of placed
    ships and every board size N, [isValidPlacement(positions,
    existingShips, N)] returns true if and only if every position has
    0 <= x < N and 0 <= y < N and coincides with no position of an
    existing ship; it returns false exactly when some cell is out of
    bounds or already occupied. *)
Theorem isValidPlacement_correct (cells : list Pos)
  (existingShips : list PlacedShip) (size : Z) :
  (isValidPlacement cells existingShips size = true
   <-> (forall p, In p cells ->
          (0 <= pos_x p < size /\ 0 <= pos_y p < size)
          /\ ~ (exists sh q, In sh existingShips /\ In q (positions sh) /\ q = p)))
  /\ (isValidPlacement cells existingShips size = false
      <-> exists p, In p cells
            /\ (~ (0 <= pos_x p < size /\ 0 <= pos_y p < size)
                \/ exists sh q, In sh existingShips /\ In q (positions sh) /\ q = p)).
Proof.
  assert (Occ : forall p,
    (exists sh q, In sh existingShips /\ In q (positions sh) /\ q = p)
    <-> occupied existingShips p).
  { intros p. unfold occupied. split.
    - intros (sh & q & Hsh & Hq & ->). exists sh. auto.
    - intros (sh & Hsh & Hq). exists sh, p. auto. }
  split.
  - rewrite isValidPlacement_true. split; intros H p Hp;
      destruct (H p Hp) as [Hg Ho]; (split; [exact Hg|]);
      intros O; apply Ho, Occ, O.
  - split.
    + intros Hf.
      destruct (Forall_Exists_dec
                  (fun p => inGrid size p /\ ~ occupied existingShips p)
                  (fun p => match inGrid_dec size p, occupied_dec existingShips p with
                            | left a, right b => left (conj a b)
                            | right a, _ => right (fun H => a (proj1 H))
                            | _, left b => right (fun H => proj2 H b)
                            end) cells) as [Hall|Hex].
      * rewrite Forall_forall in Hall.
        apply isValidPlacement_true in Hall. congruence.
      * apply Exists_exists in Hex. destruct Hex as (p & Hp & Hbad).
        exists p. split; [exact Hp|].
        destruct (inGrid_dec size p) as [Hg|Hg]; [|left; exact Hg].
        right. apply Occ.
        destruct (occupied_dec existingShips p) as [Ho|Ho]; [exact Ho|].
        exfalso. apply Hbad. split; assumption.
    + intros (p & Hp & Hbad).
      destruct (isValidPlacement cells existingShips size) eqn:E; [|reflexivity].
      exfalso. rewrite isValidPlacement_true in E.
      destruct (E p Hp) as [Hg Ho].
      destruct Hbad as [Hbad|Hbad]; [exact (Hbad Hg) | apply Ho, Occ, Hbad].
Qed.

(** ** What the methods of GameState keep *)

Lemma wellFormed_fresh : wellFormed GameState0.
Proof. repeat split. left. reflexivity. Qed.

Lemma fleet_set_placed (l : list Ship) (b : bool) :
  map (fun sh => (ship_type sh, ship_length sh)) (map (fun ship => set_placed ship b) l)
  = map (fun sh => (ship_type sh, ship_length sh)) l.
Proof. rewrite map_map. apply map_ext. intros sh. reflexivity. Qed.

Lemma fleet_markPlaced (shipId : string) (l : list Ship) :
  map (fun sh => (ship_type sh, ship_length sh)) (markPlaced shipId l)
  = map (fun sh => (ship_type sh, ship_length sh)) l.
Proof.
  induction l as [|sh rest IH]; cbn; [reflexivity|].
  destruct (String.eqb (ship_id sh) shipId); cbn; [reflexivity|].
  rewrite IH. reflexivity.
Qed.

Lemma wellFormed_resetPlacement (s : GameState) :
  boardSize s = 10 -> fleet s = standardFleet -> wellFormed (resetPlacement s).
Proof.
  intros Hb Hf. unfold wellFormed, resetPlacement, fleet in *; cbn.
  rewrite fleet_set_placed. auto.
Qed.

Lemma wellFormed_init (s : GameState) :
  boardSize s = 10 -> fleet s = standardFleet -> wellFormed (init s).
Proof.
  intros Hb Hf. unfold wellFormed, init, resetPlacement, fleet in *; cbn.
  rewrite fleet_set_placed. auto.
Qed.

Lemma wellFormed_placeShip (shipId : string) (cells : list Pos) (s : GameState) :
  wellFormed s -> wellFormed (placeShip shipId cells s).
Proof.
  intros (Hb & Hf & Ho). unfold placeShip.
  destruct (find _ _); [|repeat split; assumption].
  unfold wellFormed, fleet in *; cbn. rewrite fleet_markPlaced. auto.
Qed.

Lemma wellFormed_rotateShip (s : GameState) : wellFormed s -> wellFormed (rotateShip s).
Proof.
  intros (Hb & Hf & Ho). unfold wellFormed, rotateShip, fleet in *; cbn.
  repeat split; try assumption.
  destruct (String.eqb _ _); auto.
Qed.

Lemma wellFormed_step (s s' : GameState) : wellFormed s -> step s s' -> wellFormed s'.
Proof.
  intros W St. pose proof W as (Hb & Hf & Ho).
  destruct St;
    try (apply wellFormed_init; assumption);
    try (apply wellFormed_resetPlacement; assumption);
    try (apply wellFormed_placeShip; assumption);
    try (apply wellFormed_rotateShip; assumption);
    try (repeat split; assumption).
  - unfold switchScreen. destruct b; repeat split; assumption.
  - unfold initDefenseBoard in H. destruct (emptyBoard _); [|discriminate].
    injection H as <-. repeat split; assumption.
  - unfold initAttackBoard in H. destruct (emptyBoard _); [|discriminate].
    injection H as <-. repeat split; assumption.
Qed.

Lemma reachable_wellFormed (s : GameState) : reachable s -> wellFormed s.
Proof.
  induction 1 as [|s s' _ IH St].
  - apply wellFormed_fresh.
  - eapply wellFormed_step; eassumption.
Qed.

Lemma reachable_sampleState : reachable sampleState.
Proof.
  apply (reachable_step sampleBase);
    [|apply step_initDefenseBoard; reflexivity].
  unfold sampleBase.
  eapply reachable_step; [|apply step_placeShip].
  eapply reachable_step; [|apply step_rotateShip].
  eapply reachable_step; [|apply step_selectShip].
  eapply reachable_step; [|apply step_setPlayerName].
  apply reachable_fresh.
Defined.

(** C3. The fleet definition used for placement has exactly five ships,
    with the type tags AIRCRAFT_CARRIER, BATTLESHIP, CRUISER, DESTROYER,
    SUBMARINE and the lengths 5, 4, 3, 3, 2 in this order, in the fresh
    GameState, in every state the client reaches from it, and in such a
    state after [init()] or [reset()]. *)
Theorem fleet_definition_fixed (s : GameState) (Hs : reachable s) :
  fleet GameState0 = standardFleet
  /\ fleet s = standardFleet
  /\ fleet (init s) = standardFleet
  /\ fleet (reset s) = standardFleet
  /\ List.length (ships (placement (reset s))) = 5%nat.
Proof.
  pose proof (reachable_wellFormed s Hs) as (Hb & Hf & _).
  pose proof (wellFormed_init s Hb Hf) as (_ & Hi & _).
  repeat split; try assumption.
  change (reset s) with (init s).
  apply (f_equal (@List.length _)) in Hi.
  unfold fleet in Hi. rewrite length_map in Hi. exact Hi.
Qed.

Lemma fleet_definition_fixed_witness :
  reachable sampleState
  /\ fleet (reset sampleState)
     = [ ("AIRCRAFT_CARRIER", 5); ("BATTLESHIP", 4); ("CRUISER", 3);
         ("DESTROYER", 3); ("SUBMARINE", 2) ].
Proof.
  split; [exact reachable_sampleState|].
  exact (proj1 (proj2 (proj2 (proj2
           (fleet_definition_fixed sampleState reachable_sampleState))))).
Defined.

(** ** The boards *)

Lemma emptyBoard_10 : emptyBoard 10 = Some emptyGrid10.
Proof. reflexivity. Qed.

(** C6. [GameState.boardSize] is 10 (in the fresh state and in every
    state the client reaches), and [initDefenseBoard()], respectively
    [initAttackBoard()], returns normally and leaves a defense,
    respectively attack, board of 10 rows of 10 cells in which every cell
    is ['empty']. *)
Theorem boards_are_10_by_10_empty (s : GameState) (Hs : reachable s) :
  boardSize GameState0 = 10
  /\ boardSize s = 10
  /\ (exists s', initDefenseBoard s = Some s'
        /\ defenseBoard (game s') = emptyGrid10
        /\ List.length (defenseBoard (game s')) = 10%nat
        /\ Forall (fun row => List.length row = 10%nat
                              /\ Forall (fun c => c = Some "empty") row)
                  (defenseBoard (game s')))
  /\ (exists s', initAttackBoard s = Some s'
        /\ attackBoard (game s') = emptyGrid10
        /\ List.length (attackBoard (game s')) = 10%nat
        /\ Forall (fun row => List.length row = 10%nat
                              /\ Forall (fun c => c = Some "empty") row)
                  (attackBoard (game s'))).
Proof.
  pose proof (reachable_wellFormed s Hs) as (Hb & _ & _).
  assert (G : List.length emptyGrid10 = 10%nat
              /\ Forall (fun row => List.length row = 10%nat
                                    /\ Forall (fun c => c = Some "empty") row)
                        emptyGrid10).
  { split; [reflexivity|]. unfold emptyGrid10.
    apply Forall_forall. intros row Hr. apply repeat_spec in Hr. subst row.
    split; [reflexivity|].
    apply Forall_forall. intros c Hc. apply repeat_spec in Hc. exact Hc. }
  destruct G as [G1 G2].
  split; [reflexivity|]. split; [exact Hb|]. split.
  - unfold initDefenseBoard. rewrite Hb, emptyBoard_10.
    eexists. split; [reflexivity|]. cbn [game set_game defenseBoard]. auto.
  - unfold initAttackBoard. rewrite Hb, emptyBoard_10.
    eexists. split; [reflexivity|]. cbn [game set_game attackBoard]. auto.
Qed.

Lemma boards_are_10_by_10_empty_witness :
  reachable sampleState
  /\ exists s', initAttackBoard sampleState = Some s'
                /\ attackBoard (game s') = emptyGrid10.
Proof.
  split; [exact reachable_sampleState|].
  destruct (boards_are_10_by_10_empty sampleState reachable_sampleState)
    as (_ & _ & _ & s' & H1 & H2 & _).
  exists s'. split; assumption.
Defined.

(** ** rotateShip *)

(** C10. [rotateShip()] is an involution that only touches the
    orientation: in a state the client reaches, the orientation is
    ['horizontal'] or ['vertical'], one call turns the one into the other
    and changes no other part of the state, and two calls in a row give
    the state back. *)
Theorem rotateShip_involution (s : GameState) (Hs : reachable s) :
  (orientation (placement s) = "horizontal"
   /\ orientation (placement (rotateShip s)) = "vertical"
   \/ orientation (placement s) = "vertical"
      /\ orientation (placement (rotateShip s)) = "horizontal")
  /\ (currentScreen (rotateShip s) = currentScreen s
      /\ playerName (rotateShip s) = playerName s
      /\ playerId (rotateShip s) = playerId s
      /\ matchId (rotateShip s) = matchId s
      /\ boardSize (rotateShip s) = boardSize s
      /\ game (rotateShip s) = game s
      /\ gameTimer (rotateShip s) = gameTimer s
      /\ selectedShip (placement (rotateShip s)) = selectedShip (placement s)
      /\ placedShips (placement (rotateShip s)) = placedShips (placement s)
      /\ ships (placement (rotateShip s)) = ships (placement s))
  /\ rotateShip (rotateShip s) = s.
Proof.
  pose proof (reachable_wellFormed s Hs) as (_ & _ & Ho).
  split; [|split].
  - unfold rotateShip; cbn. destruct Ho as [-> | ->]; cbn; auto.
  - repeat split.
  - destruct s as [cs pn pid mid bs [sel o placedL shipsL] g t].
    unfold rotateShip; cbn in *.
    destruct Ho as [-> | ->]; reflexivity.
Qed.

Lemma rotateShip_involution_witness :
  reachable sampleState
  /\ orientation (placement sampleState) = "vertical"
  /\ orientation (placement (rotateShip sampleState)) = "horizontal"
  /\ rotateShip (rotateShip sampleState) = sampleState.
Proof.
  split; [exact reachable_sampleState|].
  split; [reflexivity|]. split; [reflexivity|].
  exact (proj2 (proj2 (rotateShip_involution sampleState reachable_sampleState))).
Defined.

(** ** The coordinate codec *)

Lemma digit_cases (n : Z) : 0 <= n <= 9 -> In n [0; 1; 2; 3; 4; 5; 6; 7; 8; 9].
Proof. intros H. cbn. lia. Qed.

(** C8. Round trip of the coordinate codec: for all integers x and y
    with 0 <= x <= 9 and 0 <= y <= 9,
    [parseCoordinate(formatCoordinate(x, y))] succeeds and returns
    exactly [{x, y}]. *)
Theorem parseCoordinate_formatCoordinate (x y : Z)
  (Hx : 0 <= x <= 9) (Hy : 0 <= y <= 9) :
  parseCoordinate (formatCoordinate x y) = Some (mkPos x y).
Proof.
  pose proof (digit_cases x Hx) as Ex.
  pose proof (digit_cases y Hy) as Ey.
  clear Hx Hy. cbn in Ex, Ey.
  repeat (destruct Ex as [<-|Ex];
          [repeat (destruct Ey as [<-|Ey]; [vm_compute; reflexivity|]);
           destruct Ey|]).
  destruct Ex.
Qed.

Lemma parseCoordinate_formatCoordinate_witness :
  0 <= 9 <= 9 /\ 0 <= 9 <= 9
  /\ formatCoordinate 9 9 = "J10"
  /\ parseCoordinate (formatCoordinate 9 9) = Some (mkPos 9 9).
Proof.
  split; [lia|]. split; [lia|]. split; [reflexivity|].
  apply (parseCoordinate_formatCoordinate 9 9); lia.
Defined.

(** ** The requests sent to the server *)

Lemma newMessages_send (message : JsValue) (before api : API) :
  sent api = sent before ->
  newMessages before (send message api)
  = match ws api with
    | Some readyState =>
        if readyState =? WebSocket_OPEN then [jsonValue message] else []
    | None => []
    end.
Proof.
  intros E. unfold newMessages, send.
  destruct (ws api) as [readyState|].
  - destruct (readyState =? WebSocket_OPEN); cbn [sent].
    + unfold push. rewrite <- E, skipn_app, skipn_all, Nat.sub_diag. reflexivity.
    + rewrite <- E. apply skipn_all.
  - rewrite <- E. apply skipn_all.
Qed.

Lemma newMessages_findMatch (now : Z) (name : string) (api : API) :
  newMessages api (findMatch now name api)
  = match ws api with
    | Some readyState =>
        if readyState =? WebSocket_OPEN
        then [JObj [ ("type", JStr "join_game");
                     ("playerId", JStr ("player_" ++ numberToString now));
                     ("playerName", JStr name) ]]
        else []
    | None => []
    end.
Proof. unfold findMatch. rewrite newMessages_send; reflexivity. Qed.

Lemma newMessages_sendAttack (gs : GameState) (matchIdArg coordinate : JsValue)
  (api : API) :
  newMessages api (sendAttack gs matchIdArg coordinate api)
  = match ws api with
    | Some readyState =>
        if readyState =? WebSocket_OPEN
        then [jsonValue (JObj [ ("type", JStr "attack");
                                ("gameId", matchId gs);
                                ("playerId", playerId gs);
                                ("coordinate", coordinate) ])]
        else []
    | None => []
    end.
Proof.
  unfold sendAttack.
  destruct (lookupHandler "attack_result" (messageHandlers api));
    rewrite newMessages_send; reflexivity.
Qed.

(** C5, as the code has it. Every join request the client sends is the
    message [{type:"join_game", playerId, playerName}]: the type field is
    the string "join_game", the playerId is "player_" followed by the
    time of the call, and playerName is the name passed to [findMatch];
    the call sends no other message. *)
Theorem findMatch_sends_join_game (now : Z) (name : string) (api : API)
  (m : JsValue) (Hm : In m (newMessages api (findMatch now name api))) :
  newMessages api (findMatch now name api) = [m]
  /\ m = JObj [ ("type", JStr "join_game");
                ("playerId", JStr ("player_" ++ numberToString now));
                ("playerName", JStr name) ]
  /\ getField "type" m = Some (JStr "join_game")
  /\ getField "playerId" m = Some (JStr ("player_" ++ numberToString now))
  /\ getField "playerName" m = Some (JStr name).
Proof.
  rewrite newMessages_findMatch in *.
  destruct (ws api) as [readyState|]; [|destruct Hm].
  destruct (readyState =? WebSocket_OPEN); [|destruct Hm].
  destruct Hm as [<-|[]]. repeat split.
Qed.

Lemma findMatch_sends_join_game_witness :
  In (JObj [ ("type", JStr "join_game");
             ("playerId", JStr "player_1700000000000");
             ("playerName", JStr "Ana") ])
     (newMessages openAPI (findMatch 1700000000000 "Ana" openAPI))
  /\ getField "type"
       (JObj [ ("type", JStr "join_game");
               ("playerId", JStr "player_1700000000000");
               ("playerName", JStr "Ana") ])
     = Some (JStr "join_game").
Proof.
  assert (H : In (JObj [ ("type", JStr "join_game");
                         ("playerId", JStr "player_1700000000000");
                         ("playerName", JStr "Ana") ])
                 (newMessages openAPI (findMatch 1700000000000 "Ana" openAPI)))
    by (vm_compute; left; reflexivity).
  split; [exact H|].
  exact (proj1 (proj2 (proj2
           (findMatch_sends_join_game 1700000000000 "Ana" openAPI _ H)))).
Defined.

(** C5 as the specification states it fails: the join request sent for
    the player "Ana" on an open socket does not have the type "join". *)
Lemma join_request_counterexample :
  exists m,
    In m (newMessages openAPI (findMatch 1700000000000 "Ana" openAPI))
    /\ ~ specJoinShape m.
Proof.
  eexists. split; [vm_compute; left; reflexivity|].
  intros (Ht & _). vm_compute in Ht. discriminate Ht.
Qed.

Lemma getField_jsonValue_attack (gameId player coordinate : JsValue) :
  let m := jsonValue (JObj [ ("type", JStr "attack");
                             ("gameId", gameId);
                             ("playerId", player);
                             ("coordinate", coordinate) ]) in
  getField "type" m = Some (JStr "attack")
  /\ getField "matchId" m = None
  /\ getField "gameId" m = wireField gameId
  /\ getField "playerId" m = wireField player
  /\ getField "coordinate" m = wireField coordinate.
Proof.
  destruct gameId, player, coordinate; repeat split.
Qed.

(** C4, as the code has it. Every attack request the client sends is a
    message [{type:"attack", gameId, playerId, coordinate}]: the type
    field is the string "attack", there is no matchId field, the gameId
    field holds [GameState.matchId], the playerId field holds
    [GameState.playerId] and the coordinate field holds the coordinate
    passed to [sendAttack]; of these three a field is in the message
    only if its value is not [undefined], which [JSON.stringify] leaves
    out. The call sends no other message. *)
Theorem sendAttack_sends_attack (gs : GameState) (matchIdArg coordinate : JsValue)
  (api : API) (m : JsValue)
  (Hm : In m (newMessages api (sendAttack gs matchIdArg coordinate api))) :
  newMessages api (sendAttack gs matchIdArg coordinate api) = [m]
  /\ m = jsonValue (JObj [ ("type", JStr "attack");
                           ("gameId", matchId gs);
                           ("playerId", playerId gs);
                           ("coordinate", coordinate) ])
  /\ getField "type" m = Some (JStr "attack")
  /\ getField "matchId" m = None
  /\ getField "gameId" m = wireField (matchId gs)
  /\ getField "playerId" m = wireField (playerId gs)
  /\ getField "coordinate" m = wireField coordinate.
Proof.
  rewrite newMessages_sendAttack in *.
  destruct (ws api) as [readyState|]; [|destruct Hm].
  destruct (readyState =? WebSocket_OPEN); [|destruct Hm].
  destruct Hm as [<-|[]].
  split; [reflexivity|]. split; [reflexivity|].
  apply getField_jsonValue_attack.
Qed.

Lemma sendAttack_sends_attack_witness :
  In (JObj [ ("type", JStr "attack");
             ("gameId", JStr "game_0");
             ("coordinate", JStr "F8") ])
     (newMessages openAPI (handleAttackCell joinedState 5 7 openAPI))
  /\ playerId joinedState = JUndefined
  /\ getField "gameId"
       (JObj [ ("type", JStr "attack");
               ("gameId", JStr "game_0");
               ("coordinate", JStr "F8") ])
     = wireField (matchId joinedState)
  /\ getField "playerId"
       (JObj [ ("type", JStr "attack");
               ("gameId", JStr "game_0");
               ("coordinate", JStr "F8") ])
     = wireField (playerId joinedState).
Proof.
  assert (H : In (JObj [ ("type", JStr "attack");
                         ("gameId", JStr "game_0");
                         ("coordinate", JStr "F8") ])
                 (newMessages openAPI
                    (sendAttack joinedState (matchId joinedState)
                       (JStr (formatCoordinate 5 7)) openAPI)))
    by (vm_compute; left; reflexivity).
  split; [exact H|]. split; [reflexivity|].
  destruct (sendAttack_sends_attack joinedState _ _ openAPI _ H)
    as (_ & _ & _ & _ & Hg & Hp & _).
  split; [exact Hg | exact Hp].
Defined.

(** C4 as the specification states it fails: after the join reply that
    the README documents, the request that [handleAttackCell] sends for
    the cell (5, 7) has no matchId field and no playerId field, and its
    coordinate is the string "F8", not an object with x and y. *)
Lemma attack_request_counterexample :
  exists m,
    In m (newMessages openAPI (handleAttackCell joinedState 5 7 openAPI))
    /\ getField "matchId" m = None
    /\ getField "playerId" m = None
    /\ getField "coordinate" m = Some (JStr "F8")
    /\ ~ specAttackShape m.
Proof.
  eexists. split; [vm_compute; left; reflexivity|].
  split; [reflexivity|]. split; [reflexivity|]. split; [reflexivity|].
  intros (_ & (v & Hv) & _). vm_compute in Hv. discriminate Hv.
Qed.

(** ** The handshake token *)

Lemma encode_app (a b : string) : encode (a ++ b) = (encode a ++ encode b)%list.
Proof.
  induction a as [|c a IH]; cbn; [reflexivity|].
  rewrite IH, app_assoc. reflexivity.
Qed.

Lemma encode_decode (b : bytes) : Forall isAsciiByte b -> encode (decode b) = b.
Proof.
  induction 1 as [|n rest Hn _ IH]; cbn; [reflexivity|].
  rewrite IH. unfold encodeChar, charCode, isAsciiByte in *.
  rewrite N_ascii_embedding by lia.
  rewrite Z2N.id by lia.
  destruct (Z.ltb_spec n 128); [reflexivity | lia].
Qed.

Lemma alphabet_ascii : Forall isAsciiByte base64.alphabet.
Proof.
  apply Forall_forall. intros n Hn. unfold isAsciiByte.
  assert (C : forallb (fun n => (0 <=? n) && (n <? 128)) base64.alphabet = true)
    by (vm_compute; reflexivity).
  rewrite forallb_forall in C. specialize (C n Hn).
  rewrite andb_true_iff, Z.leb_le, Z.ltb_lt in C. exact C.
Qed.

Lemma digit_ascii (i : Z) : isAsciiByte (base64.digit i).
Proof.
  unfold base64.digit.
  destruct (nth_in_or_default (Z.to_nat i) base64.alphabet 0) as [Hin| ->].
  - exact (proj1 (Forall_forall _ _) alphabet_ascii _ Hin).
  - unfold isAsciiByte. lia.
Qed.

Lemma padChar_ascii : isAsciiByte base64.padChar.
Proof. unfold isAsciiByte, base64.padChar. lia. Qed.

Lemma b64encode_ascii (l : bytes) : Forall isAsciiByte (base64.b64encode l).
Proof.
  assert (G : forall n (l : bytes), (List.length l <= n)%nat ->
                Forall isAsciiByte (base64.b64encode l)).
  { clear l. induction n as [|n IH]; intros l Hl.
    - destruct l; [constructor | cbn in Hl; lia].
    - destruct l as [|a [|b [|c rest]]]; cbn [base64.b64encode].
      + constructor.
      + repeat (apply Forall_cons;
                [first [apply digit_ascii | apply padChar_ascii]|]).
        apply Forall_nil.
      + repeat (apply Forall_cons;
                [first [apply digit_ascii | apply padChar_ascii]|]).
        apply Forall_nil.
      + repeat (apply Forall_cons; [apply digit_ascii|]).
        apply IH. cbn in Hl. lia. }
  exact (G (List.length l) l (le_n _)).
Qed.

(** ** SHA-1 and base64 against their standards *)

Lemma mask32_mod (x : Z) : hashlib.mask32 x = x mod 2 ^ 32.
Proof.
  unfold hashlib.mask32. change 0xFFFFFFFF with (Z.ones 32).
  apply Z.land_ones. lia.
Qed.

Lemma isWord_mod (x : Z) : isWord (x mod 2 ^ 32).
Proof. unfold isWord. apply Z.mod_pos_bound. lia. Qed.

Lemma isWord_mask32 (x : Z) : isWord (hashlib.mask32 x).
Proof. rewrite mask32_mod. apply isWord_mod. Qed.

Lemma isWord_high (x : Z) : isWord x -> forall i, 32 <= i -> Z.testbit x i = false.
Proof.
  intros Hx i Hi. rewrite <- (Z.mod_small x (2 ^ 32)) by exact Hx.
  apply Z.mod_pow2_bits_high. lia.
Qed.

Lemma isWord_bits (x : Z) :
  (forall i, 32 <= i -> Z.testbit x i = false) -> isWord x.
Proof.
  intros H. replace x with (x mod 2 ^ 32); [apply isWord_mod|].
  apply Z.bits_inj'. intros i Hi. rewrite Z.testbit_mod_pow2 by lia.
  destruct (Z.ltb_spec i 32); cbn [andb]; [reflexivity|].
  symmetry. apply H. lia.
Qed.

Lemma isWord_lxor (a b : Z) : isWord a -> isWord b -> isWord (Z.lxor a b).
Proof.
  intros Ha Hb. apply isWord_bits. intros i Hi.
  rewrite Z.lxor_spec, (isWord_high a Ha i Hi), (isWord_high b Hb i Hi).
  reflexivity.
Qed.

Lemma rotl32_ROTL (x n : Z) :
  isWord x -> 0 <= n <= 32 -> hashlib.rotl32 x n = FIPS180.ROTL n x.
Proof.
  intros Hx Hn. unfold hashlib.rotl32, FIPS180.ROTL, FIPS180.SHL, FIPS180.SHR.
  rewrite mask32_mod, Z.shiftl_mul_pow2, Z.shiftr_div_pow2 by lia.
  apply Z.bits_inj'. intros i Hi.
  rewrite Z.testbit_mod_pow2, !Z.lor_spec, Z.testbit_mod_pow2 by lia.
  destruct (Z.ltb_spec i 32); cbn [andb]; [reflexivity|].
  rewrite Z.div_pow2_bits by lia.
  rewrite (isWord_high x Hx) by lia. reflexivity.
Qed.

Lemma isWord_rotl32 (x n : Z) : isWord (hashlib.rotl32 x n).
Proof. apply isWord_mask32. Qed.

Lemma NOT_lxor (x : Z) : isWord x -> Z.lxor x 0xFFFFFFFF = FIPS180.NOT x.
Proof.
  intros Hx. unfold FIPS180.NOT.
  replace (2 ^ 32 - 1 - x) with (Z.lnot x mod 2 ^ 32).
  - change 0xFFFFFFFF with (Z.ones 32).
    apply Z.bits_inj'. intros i Hi.
    rewrite Z.lxor_spec, Z.testbit_mod_pow2, Z.lnot_spec, Z.testbit_ones_nonneg by lia.
    destruct (Z.ltb_spec i 32); cbn [andb].
    + destruct (Z.testbit x i); reflexivity.
    + rewrite (isWord_high x Hx) by lia. reflexivity.
  - rewrite Z.lnot_eq_pred_opp. unfold isWord in Hx.
    change (2 ^ 32) with 4294967296 in *.
    symmetry. apply (Z.mod_unique _ _ (-1)); lia.
Qed.

Lemma Ch_eq (x y z : Z) :
  isWord x ->
  Z.lor (Z.land x y) (Z.land (Z.lxor x 0xFFFFFFFF) z) = FIPS180.Ch x y z.
Proof.
  intros Hx. unfold FIPS180.Ch. rewrite <- (NOT_lxor x Hx).
  change 0xFFFFFFFF with (Z.ones 32).
  apply Z.bits_inj'. intros i Hi.
  rewrite Z.lor_spec, !Z.lxor_spec, !Z.land_spec, Z.lxor_spec,
    Z.testbit_ones_nonneg by lia.
  destruct (Z.ltb_spec i 32).
  - destruct (Z.testbit x i), (Z.testbit y i), (Z.testbit z i); reflexivity.
  - rewrite (isWord_high x Hx) by lia.
    destruct (Z.testbit y i), (Z.testbit z i); reflexivity.
Qed.

Lemma Maj_eq (x y z : Z) :
  Z.lor (Z.lor (Z.land x y) (Z.land x z)) (Z.land y z) = FIPS180.Maj x y z.
Proof.
  unfold FIPS180.Maj. apply Z.bits_inj'. intros i Hi.
  rewrite !Z.lor_spec, !Z.lxor_spec, !Z.land_spec.
  destruct (Z.testbit x i), (Z.testbit y i), (Z.testbit z i); reflexivity.
Qed.

Lemma add4 (x fv e k w : Z) :
  FIPS180.wordAdd (FIPS180.wordAdd (FIPS180.wordAdd (FIPS180.wordAdd x fv) e) k) w
  = (x + fv + e + k + w) mod 2 ^ 32.
Proof.
  unfold FIPS180.wordAdd.
  repeat (rewrite Z.add_mod_idemp_l by lia; rewrite <- ?Z.add_assoc).
  f_equal; lia.
Qed.

Lemma round_step (Ws : list Z) (v : FIPS180.vars) (t : nat) :
  isVars v -> (t < 80)%nat ->
  hashlib.round v (Z.of_nat t, nth t Ws 0) = FIPS180.turn Ws v t
  /\ isVars (FIPS180.turn Ws v t).
Proof.
  destruct v as [[[[a b] c] d] e]. intros (Ha & Hb & Hc & Hd & He) Ht.
  assert (E : hashlib.round (a, b, c, d, e) (Z.of_nat t, nth t Ws 0)
              = FIPS180.turn Ws (a, b, c, d, e) t).
  { unfold hashlib.round, FIPS180.turn, FIPS180.ft, FIPS180.Kt.
    rewrite add4, <- (rotl32_ROTL b 30 Hb), <- (rotl32_ROTL a 5 Ha) by lia.
    destruct (Z.ltb_spec (Z.of_nat t) 20); destruct (Nat.leb_spec t 19); try lia.
    { rewrite mask32_mod, Ch_eq by exact Hb. reflexivity. }
    destruct (Z.ltb_spec (Z.of_nat t) 40); destruct (Nat.leb_spec t 39); try lia.
    { rewrite mask32_mod. reflexivity. }
    destruct (Z.ltb_spec (Z.of_nat t) 60); destruct (Nat.leb_spec t 59); try lia.
    { rewrite mask32_mod, Maj_eq. reflexivity. }
    rewrite mask32_mod. reflexivity. }
  split; [exact E|]. rewrite <- E.
  unfold hashlib.round.
  destruct (if Z.of_nat t <? 20 then _ else _) as [fv kv].
  repeat split; try assumption; try apply isWord_mask32; try apply Ha; try apply Hc;
    try apply Hd; try apply Hb.
Qed.

Lemma rounds_steps (Ws : list Z) :
  forall (rest pre : list Z) (v : FIPS180.vars),
    Ws = (pre ++ rest)%list -> (List.length Ws <= 80)%nat -> isVars v ->
    fold_left hashlib.round
      (combine (map Z.of_nat (seq (List.length pre) (List.length rest))) rest) v
    = fold_left (FIPS180.turn Ws) (seq (List.length pre) (List.length rest)) v
    /\ isVars (fold_left (FIPS180.turn Ws) (seq (List.length pre) (List.length rest)) v).
Proof.
  induction rest as [|w rest IH]; intros pre v E L Hv.
  - cbn. auto.
  - cbn [List.length seq map combine fold_left].
    assert (Hw : nth (List.length pre) Ws 0 = w) by (rewrite E; apply nth_middle).
    assert (Ht : (List.length pre < 80)%nat).
    { rewrite E, length_app in L. cbn in L. lia. }
    destruct (round_step Ws v (List.length pre) Hv Ht) as [R1 R2].
    rewrite Hw in R1. rewrite R1.
    specialize (IH (pre ++ [w])%list (FIPS180.turn Ws v (List.length pre))).
    rewrite length_app in IH. cbn [List.length] in IH.
    rewrite Nat.add_1_r in IH.
    apply IH; [|exact L | exact R2].
    rewrite E, <- app_assoc. reflexivity.
Qed.

Lemma indexed_rounds (Ws : list Z) (v : FIPS180.vars) :
  List.length Ws = 80%nat -> isVars v ->
  fold_left hashlib.round (hashlib.indexed Ws) v
  = fold_left (FIPS180.turn Ws) (seq 0 80) v
  /\ isVars (fold_left (FIPS180.turn Ws) (seq 0 80) v).
Proof.
  intros L Hv. unfold hashlib.indexed.
  pose proof (rounds_steps Ws Ws [] v eq_refl ltac:(lia) Hv) as H.
  cbn [List.length] in H. rewrite L in H. rewrite L. exact H.
Qed.

(** The message schedule *)

Lemma extend_schedule (n : nat) :
  forall Ws : list Z,
    (16 <= List.length Ws)%nat -> Forall isWord Ws ->
    hashlib.extend n (rev Ws) = rev (FIPS180.extendSchedule n Ws).
Proof.
  induction n as [|n IH]; intros Ws L Hw; [reflexivity|].
  cbn [hashlib.extend FIPS180.extendSchedule].
  assert (N : forall k, (k < 16)%nat ->
                nth k (rev Ws) 0 = nth (List.length Ws - S k) Ws 0
                /\ isWord (nth (List.length Ws - S k) Ws 0)).
  { intros k Hk. split; [apply rev_nth; lia|].
    apply Forall_nth; [exact Hw | lia]. }
  destruct (N 2%nat ltac:(lia)) as [-> W3].
  destruct (N 7%nat ltac:(lia)) as [-> W8].
  destruct (N 13%nat ltac:(lia)) as [-> W14].
  destruct (N 15%nat ltac:(lia)) as [-> W16].
  set (w3 := nth (List.length Ws - 3) Ws 0) in *.
  set (w8 := nth (List.length Ws - 8) Ws 0) in *.
  set (w14 := nth (List.length Ws - 14) Ws 0) in *.
  set (w16 := nth (List.length Ws - 16) Ws 0) in *.
  assert (X : Z.lxor (Z.lxor w3 w8) (Z.lxor w14 w16)
              = Z.lxor (Z.lxor (Z.lxor w3 w8) w14) w16)
    by (rewrite !Z.lxor_assoc; reflexivity).
  rewrite X.
  assert (XW : isWord (Z.lxor (Z.lxor (Z.lxor w3 w8) w14) w16))
    by (repeat apply isWord_lxor; assumption).
  pose proof (isWord_rotl32 (Z.lxor (Z.lxor (Z.lxor w3 w8) w14) w16) 1) as RW.
  rewrite rotl32_ROTL in * by (exact XW || lia).
  rewrite <- IH.
  - rewrite rev_app_distr. reflexivity.
  - rewrite length_app. lia.
  - apply Forall_app. split; [exact Hw|]. constructor; [exact RW | constructor].
Qed.

Lemma schedule_length (n : nat) :
  forall Ws, List.length (FIPS180.extendSchedule n Ws) = (n + List.length Ws)%nat.
Proof.
  induction n as [|n IH]; intros Ws; [reflexivity|].
  cbn [FIPS180.extendSchedule]. rewrite IH, length_app. cbn. lia.
Qed.

(** Words and blocks *)

Lemma isByte_high (b : Z) : isByte b -> forall i, 8 <= i -> Z.testbit b i = false.
Proof.
  intros Hb i Hi. rewrite <- (Z.mod_small b (2 ^ 8)) by exact Hb.
  apply Z.mod_pow2_bits_high. lia.
Qed.

Lemma lor_add (a b n : Z) :
  0 <= n -> 0 <= b < 2 ^ n -> Z.lor (a * 2 ^ n) b = a * 2 ^ n + b.
Proof.
  intros Hn Hb.
  assert (D : Z.land (a * 2 ^ n) b = 0).
  { apply Z.bits_inj'. intros i Hi. rewrite Z.land_spec, Z.bits_0.
    destruct (Z.lt_ge_cases i n).
    - rewrite Z.mul_pow2_bits_low by lia. reflexivity.
    - rewrite <- (Z.mod_small b (2 ^ n)) by exact Hb.
      rewrite Z.mod_pow2_bits_high by lia. apply andb_false_r. }
  pose proof (Z.add_lor_land (a * 2 ^ n) b). lia.
Qed.

Lemma wordOfBytes_arith (b0 b1 b2 b3 : Z) :
  isByte b0 -> isByte b1 -> isByte b2 -> isByte b3 ->
  hashlib.wordOfBytes b0 b1 b2 b3 = b0 * 2 ^ 24 + b1 * 2 ^ 16 + b2 * 2 ^ 8 + b3
  /\ isWord (hashlib.wordOfBytes b0 b1 b2 b3).
Proof.
  unfold isByte, isWord. intros H0 H1 H2 H3.
  assert (E : hashlib.wordOfBytes b0 b1 b2 b3
              = b0 * 2 ^ 24 + b1 * 2 ^ 16 + b2 * 2 ^ 8 + b3).
  { unfold hashlib.wordOfBytes.
    replace (Z.shiftl b0 24) with (Z.shiftl (Z.shiftl b0 8) 16)
      by (rewrite Z.shiftl_shiftl by lia; reflexivity).
    rewrite <- Z.shiftl_lor, !Z.shiftl_mul_pow2 by lia.
    rewrite (lor_add b0 b1 8) by lia.
    rewrite (lor_add b2 b3 8) by lia.
    rewrite lor_add by lia. lia. }
  split; [exact E|]. rewrite E. lia.
Qed.

Lemma wordsOfBytes_nth (n : nat) :
  forall l : bytes,
    List.length l = (4 * n)%nat ->
    hashlib.wordsOfBytes l
    = map (fun t => hashlib.wordOfBytes (nth (4 * t) l 0) (nth (4 * t + 1) l 0)
                      (nth (4 * t + 2) l 0) (nth (4 * t + 3) l 0))
          (seq 0 n).
Proof.
  induction n as [|n IH]; intros l L.
  - destruct l; [reflexivity | discriminate L].
  - destruct l as [|b0 [|b1 [|b2 [|b3 rest]]]]; try (cbn in L; lia).
    cbn [hashlib.wordsOfBytes seq map]. f_equal.
    rewrite IH by (cbn in L; lia).
    rewrite <- seq_shift, map_map. apply map_ext. intros t.
    replace (4 * S t)%nat with (S (S (S (S (4 * t))))) by lia.
    reflexivity.
Qed.

Lemma blocks_map (n : nat) :
  forall l : bytes,
    hashlib.blocks n l = map (fun i => firstn 64 (skipn (64 * i) l)) (seq 0 n).
Proof.
  induction n as [|n IH]; intros l; [reflexivity|].
  cbn [hashlib.blocks seq map]. f_equal.
  rewrite IH, <- seq_shift, map_map. apply map_ext. intros i.
  rewrite skipn_skipn. do 2 f_equal. lia.
Qed.

Lemma block_words (padded : bytes) (i : nat) :
  Forall isByte padded -> (64 * i + 64 <= List.length padded)%nat ->
  hashlib.wordsOfBytes (firstn 64 (skipn (64 * i) padded))
  = map (FIPS180.Mt padded i) (seq 0 16)
  /\ Forall isWord (map (FIPS180.Mt padded i) (seq 0 16)).
Proof.
  intros Hb L.
  assert (B : forall k, isByte (nth k padded 0)).
  { intros k. destruct (Nat.lt_ge_cases k (List.length padded)).
    - apply Forall_nth; assumption.
    - rewrite nth_overflow by lia. unfold isByte. lia. }
  assert (P : forall t, In t (seq 0 16) ->
            hashlib.wordOfBytes
              (nth (4 * t) (firstn 64 (skipn (64 * i) padded)) 0)
              (nth (4 * t + 1) (firstn 64 (skipn (64 * i) padded)) 0)
              (nth (4 * t + 2) (firstn 64 (skipn (64 * i) padded)) 0)
              (nth (4 * t + 3) (firstn 64 (skipn (64 * i) padded)) 0)
            = FIPS180.Mt padded i t
            /\ isWord (FIPS180.Mt padded i t)).
  { intros t Ht. apply in_seq in Ht.
    assert (N : forall j, (j < 4)%nat ->
              nth (4 * t + j) (firstn 64 (skipn (64 * i) padded)) 0
              = nth (64 * i + 4 * t + j) padded 0).
    { intros j Hj. rewrite nth_firstn.
      destruct (Nat.ltb_spec (4 * t + j) 64); [|lia].
      rewrite nth_skipn. f_equal. lia. }
    rewrite <- (Nat.add_0_r (4 * t)) at 1.
    rewrite !N by lia. rewrite Nat.add_0_r.
    destruct (wordOfBytes_arith _ _ _ _
                (B (64 * i + 4 * t)%nat) (B (64 * i + 4 * t + 1)%nat)
                (B (64 * i + 4 * t + 2)%nat) (B (64 * i + 4 * t + 3)%nat))
      as [E W].
    unfold FIPS180.Mt. rewrite <- E. split; [reflexivity | exact W]. }
  split.
  - rewrite (wordsOfBytes_nth 16).
    + apply map_ext_in. intros t Ht. apply P. exact Ht.
    + rewrite length_firstn, length_skipn. lia.
  - apply Forall_forall. intros w Hw. apply in_map_iff in Hw.
    destruct Hw as (t & <- & Ht). apply P. exact Ht.
Qed.

Lemma schedule_W (padded : bytes) (i : nat) :
  Forall isByte padded -> (64 * i + 64 <= List.length padded)%nat ->
  hashlib.schedule (firstn 64 (skipn (64 * i) padded)) = FIPS180.Wt padded i
  /\ List.length (FIPS180.Wt padded i) = 80%nat.
Proof.
  intros Hb L. destruct (block_words padded i Hb L) as [E Hw].
  unfold hashlib.schedule, FIPS180.Wt. rewrite E. split.
  - rewrite extend_schedule, rev_involutive; [reflexivity | | exact Hw].
    rewrite length_map, length_seq. lia.
  - rewrite schedule_length, length_map, length_seq. reflexivity.
Qed.

Lemma compress_hashBlock (padded : bytes) (H : FIPS180.vars) (i : nat) :
  Forall isByte padded -> (64 * i + 64 <= List.length padded)%nat -> isVars H ->
  hashlib.compress H (firstn 64 (skipn (64 * i) padded)) = FIPS180.hashBlock padded H i
  /\ isVars (FIPS180.hashBlock padded H i).
Proof.
  intros Hb L Hv. destruct (schedule_W padded i Hb L) as [E L80].
  destruct (indexed_rounds (FIPS180.Wt padded i) H L80 Hv) as [R _].
  unfold hashlib.compress, FIPS180.hashBlock.
  rewrite E, R. clear R E.
  destruct H as [[[[h0 h1] h2] h3] h4].
  generalize (fold_left (FIPS180.turn (FIPS180.Wt padded i)) (seq 0 80)
                (h0, h1, h2, h3, h4)).
  intros [[[[a b] c] d] e].
  unfold FIPS180.wordAdd. rewrite <- !mask32_mod.
  rewrite (Z.add_comm a h0), (Z.add_comm b h1), (Z.add_comm c h2),
    (Z.add_comm d h3), (Z.add_comm e h4).
  split; [reflexivity|].
  repeat split; apply isWord_mask32.
Qed.

(** Padding and the digest *)

Lemma zeroBits_bytes (len : Z) :
  (FIPS180.zeroBits (8 * len) - 7) / 8 = (55 - len) mod 64.
Proof. unfold FIPS180.zeroBits. Z.div_mod_to_equations. lia. Qed.

Lemma byte_of_shiftr (x n : Z) :
  0 <= n -> Z.land (Z.shiftr x n) 255 = (x / 2 ^ n) mod 256.
Proof.
  intros Hn. rewrite Z.shiftr_div_pow2 by exact Hn.
  change 255 with (Z.ones 8). rewrite Z.land_ones by lia. reflexivity.
Qed.

Lemma byte_of_mask32 (x n : Z) :
  0 <= n <= 24 -> ((x mod 2 ^ 32) / 2 ^ n) mod 256 = (x / 2 ^ n) mod 256.
Proof.
  intros Hn. change 256 with (2 ^ 8).
  apply Z.bits_inj'. intros i Hi.
  rewrite !Z.testbit_mod_pow2, !Z.div_pow2_bits, Z.testbit_mod_pow2 by lia.
  destruct (Z.ltb_spec i 8); cbn [andb]; [|reflexivity].
  destruct (Z.ltb_spec (i + n) 32); [reflexivity | lia].
Qed.

Lemma length64_bytes (l : Z) :
  (hashlib.bytesOfWord (Z.shiftr l 32) ++ hashlib.bytesOfWord (hashlib.mask32 l))%list
  = FIPS180.length64 l.
Proof.
  unfold hashlib.bytesOfWord, FIPS180.length64.
  cbn [app map seq].
  rewrite !Z.shiftr_shiftr by lia.
  rewrite !byte_of_shiftr by lia.
  change (Z.land (Z.shiftr l 32) 255) with (Z.land (Z.shiftr l (32 + 0)) 255).
  change (Z.land (hashlib.mask32 l) 255)
    with (Z.land (Z.shiftr (hashlib.mask32 l) 0) 255).
  rewrite !byte_of_shiftr by lia.
  rewrite mask32_mod, !byte_of_mask32 by lia.
  reflexivity.
Qed.

Lemma pad_padding (msg : bytes) : hashlib.pad msg = FIPS180.padding msg.
Proof.
  unfold hashlib.pad, FIPS180.padding.
  rewrite zeroBits_bytes, length64_bytes. reflexivity.
Qed.

Lemma isByte_land255 (x : Z) : isByte (Z.land x 255).
Proof.
  unfold isByte. change 255 with (Z.ones 8). rewrite Z.land_ones by lia.
  apply Z.mod_pos_bound. lia.
Qed.

Lemma bytesOfWord_isByte (w : Z) : Forall isByte (hashlib.bytesOfWord w).
Proof. unfold hashlib.bytesOfWord. repeat constructor; apply isByte_land255. Qed.

Lemma pad_isByte (msg : bytes) : Forall isByte msg -> Forall isByte (hashlib.pad msg).
Proof.
  intros Hm. unfold hashlib.pad.
  repeat (apply Forall_app; split); try apply bytesOfWord_isByte.
  - exact Hm.
  - constructor; [unfold isByte; lia | constructor].
  - apply Forall_forall. intros x Hx. apply repeat_spec in Hx. subst x.
    unfold isByte. lia.
Qed.

Lemma bytesOfWord_wordBytes (w : Z) :
  isWord w -> hashlib.bytesOfWord w = FIPS180.wordBytes w.
Proof.
  intros Hw. unfold hashlib.bytesOfWord, FIPS180.wordBytes.
  change (Z.land w 255) with (Z.land (Z.shiftr w 0) 255).
  rewrite !byte_of_shiftr by lia.
  change (2 ^ 0) with 1. rewrite Z.div_1_r.
  rewrite (Z.mod_small (w / 2 ^ 24)); [reflexivity|].
  unfold isWord in Hw. change (2 ^ 32) with 4294967296 in Hw.
  change (2 ^ 24) with 16777216.
  split; [apply Z.div_pos; lia | apply Z.div_lt_upper_bound; lia].
Qed.

Lemma fold_compress (padded : bytes) :
  Forall isByte padded ->
  forall (l : list nat) (H : FIPS180.vars),
    (forall i, In i l -> (64 * i + 64 <= List.length padded)%nat) -> isVars H ->
    fold_left hashlib.compress
      (map (fun i => firstn 64 (skipn (64 * i) padded)) l) H
    = fold_left (FIPS180.hashBlock padded) l H
    /\ isVars (fold_left (FIPS180.hashBlock padded) l H).
Proof.
  intros Hb. induction l as [|i l IH]; intros H Hl Hv; [cbn; auto|].
  cbn [map fold_left].
  destruct (compress_hashBlock padded H i Hb (Hl i (or_introl eq_refl)) Hv)
    as [C V].
  rewrite C. apply IH; [|exact V].
  intros j Hj. apply Hl. right. exact Hj.
Qed.

(** [hashlib.sha1] computes the SHA-1 of FIPS 180-4 on every message of
    bytes. *)
Lemma sha1_SHA1 (msg : bytes) :
  Forall isByte msg -> hashlib.sha1 msg = FIPS180.SHA1 msg.
Proof.
  intros Hm. unfold hashlib.sha1, FIPS180.SHA1.
  rewrite blocks_map.
  pose proof (pad_isByte msg Hm) as Hp.
  rewrite <- pad_padding.
  assert (V0 : isVars hashlib.initial).
  { unfold isVars, hashlib.initial, isWord. change (2 ^ 32) with 4294967296. lia. }
  destruct (fold_compress (hashlib.pad msg) Hp
              (seq 0 (List.length (hashlib.pad msg) / 64)) hashlib.initial)
    as [F V].
  { intros i Hi. apply in_seq in Hi.
    pose proof (Nat.div_mod_eq (List.length (hashlib.pad msg)) 64). lia. }
  { exact V0. }
  rewrite F. change FIPS180.H0 with hashlib.initial.
  revert V.
  generalize (fold_left (FIPS180.hashBlock (hashlib.pad msg))
                (seq 0 (List.length (hashlib.pad msg) / 64)) hashlib.initial).
  intros [[[[h0 h1] h2] h3] h4] (V0' & V1 & V2 & V3 & V4).
  rewrite !bytesOfWord_wordBytes by assumption. reflexivity.
Qed.

Lemma sha1_isByte (msg : bytes) : Forall isByte (hashlib.sha1 msg).
Proof.
  unfold hashlib.sha1.
  generalize (fold_left hashlib.compress
                (hashlib.blocks (List.length (hashlib.pad msg) / 64) (hashlib.pad msg))
                hashlib.initial).
  intros [[[[h0 h1] h2] h3] h4].
  repeat (apply Forall_app; split); apply bytesOfWord_isByte.
Qed.

(** base64 *)

Lemma digit_alphabetChar (v : Z) :
  0 <= v < 64 -> base64.digit v = RFC4648.alphabetChar v.
Proof.
  intros Hv.
  assert (C : forallb (fun n => base64.digit (Z.of_nat n)
                                =? RFC4648.alphabetChar (Z.of_nat n))
                      (seq 0 64) = true) by (vm_compute; reflexivity).
  rewrite forallb_forall in C.
  specialize (C (Z.to_nat v)). rewrite Z2Nat.id in C by lia.
  apply Z.eqb_eq, C, in_seq. lia.
Qed.

Lemma sextet0 (a r : Z) :
  isByte a -> 0 <= r < 65536 ->
  Z.shiftr a 2 = RFC4648.sextet (a * 65536 + r) 0
  /\ 0 <= Z.shiftr a 2 < 64.
Proof.
  unfold isByte, RFC4648.sextet. intros Ha Hr.
  rewrite Z.shiftr_div_pow2 by lia.
  change (2 ^ 2) with 4. change (64 ^ (3 - 0)) with 262144.
  assert (Hq : 0 <= a / 4 < 64)
    by (split; [apply Z.div_pos; lia | apply Z.div_lt_upper_bound; lia]).
  assert (E : (a * 65536 + r) / 262144 = a / 4).
  { symmetry. apply (Z.div_unique _ _ _ ((a mod 4) * 65536 + r)).
    - left. pose proof (Z.mod_pos_bound a 4). lia.
    - pose proof (Z.div_mod a 4). lia. }
  rewrite E, Z.mod_small by lia. split; [reflexivity | lia].
Qed.

Lemma sextet1 (a b c : Z) :
  isByte a -> isByte b -> isByte c ->
  Z.lor (Z.shiftl (Z.land a 3) 4) (Z.shiftr b 4)
  = RFC4648.sextet (a * 65536 + b * 256 + c) 1
  /\ 0 <= Z.lor (Z.shiftl (Z.land a 3) 4) (Z.shiftr b 4) < 64.
Proof.
  unfold isByte, RFC4648.sextet. intros Ha Hb Hc.
  change (64 ^ (3 - 1)) with 4096.
  assert (Hq : 0 <= b / 16 < 16)
    by (split; [apply Z.div_pos; lia | apply Z.div_lt_upper_bound; lia]).
  assert (V : Z.lor (Z.shiftl (Z.land a 3) 4) (Z.shiftr b 4) = a mod 4 * 16 + b / 16).
  { change 3 with (Z.ones 2). rewrite Z.land_ones by lia.
    rewrite Z.shiftl_mul_pow2, Z.shiftr_div_pow2 by lia.
    rewrite lor_add by (change (2 ^ 4) with 16; lia). reflexivity. }
  rewrite V.
  assert (E : (a * 65536 + b * 256 + c) / 4096 = a * 16 + b / 16).
  { symmetry. apply (Z.div_unique _ _ _ ((b mod 16) * 256 + c)).
    - left. pose proof (Z.mod_pos_bound b 16). lia.
    - pose proof (Z.div_mod b 16). lia. }
  assert (F : (a * 16 + b / 16) mod 64 = (a mod 4) * 16 + b / 16).
  { symmetry. apply (Z.mod_unique _ _ (a / 4)).
    - left. pose proof (Z.mod_pos_bound a 4). lia.
    - pose proof (Z.div_mod a 4). lia. }
  rewrite E, F. split; [reflexivity|].
  pose proof (Z.mod_pos_bound a 4). lia.
Qed.

Lemma sextet2 (a b c : Z) :
  isByte a -> isByte b -> isByte c ->
  Z.lor (Z.shiftl (Z.land b 15) 2) (Z.shiftr c 6)
  = RFC4648.sextet (a * 65536 + b * 256 + c) 2
  /\ 0 <= Z.lor (Z.shiftl (Z.land b 15) 2) (Z.shiftr c 6) < 64.
Proof.
  unfold isByte, RFC4648.sextet. intros Ha Hb Hc.
  change (64 ^ (3 - 2)) with 64.
  assert (Hq : 0 <= c / 64 < 4)
    by (split; [apply Z.div_pos; lia | apply Z.div_lt_upper_bound; lia]).
  assert (V : Z.lor (Z.shiftl (Z.land b 15) 2) (Z.shiftr c 6) = b mod 16 * 4 + c / 64).
  { change 15 with (Z.ones 4). rewrite Z.land_ones by lia.
    rewrite Z.shiftl_mul_pow2, Z.shiftr_div_pow2 by lia.
    rewrite lor_add by (change (2 ^ 2) with 4; change (2 ^ 6) with 64; lia).
    reflexivity. }
  rewrite V.
  assert (E : (a * 65536 + b * 256 + c) / 64 = a * 1024 + b * 4 + c / 64).
  { symmetry. apply (Z.div_unique _ _ _ (c mod 64)).
    - left. apply Z.mod_pos_bound. lia.
    - pose proof (Z.div_mod c 64). lia. }
  assert (F : (a * 1024 + b * 4 + c / 64) mod 64 = (b mod 16) * 4 + c / 64).
  { symmetry. apply (Z.mod_unique _ _ (a * 16 + b / 16)).
    - left. pose proof (Z.mod_pos_bound b 16). lia.
    - pose proof (Z.div_mod b 16). lia. }
  rewrite E, F. split; [reflexivity|].
  pose proof (Z.mod_pos_bound b 16). lia.
Qed.

Lemma sextet3 (a b c : Z) :
  isByte a -> isByte b -> isByte c ->
  Z.land c 63 = RFC4648.sextet (a * 65536 + b * 256 + c) 3
  /\ 0 <= Z.land c 63 < 64.
Proof.
  unfold isByte, RFC4648.sextet. intros Ha Hb Hc.
  change 63 with (Z.ones 6). rewrite Z.land_ones by lia.
  change (2 ^ 6) with 64. change (64 ^ (3 - 3)) with 1.
  rewrite Z.div_1_r.
  split; [|apply Z.mod_pos_bound; lia].
  apply (Z.mod_unique _ _ (a * 1024 + b * 4 + c / 64)).
  - left. apply Z.mod_pos_bound. lia.
  - pose proof (Z.div_mod c 64). lia.
Qed.

Lemma lor_0_shiftr (x : Z) : x = Z.lor x (Z.shiftr 0 4) /\ x = Z.lor x (Z.shiftr 0 6).
Proof. rewrite !Z.shiftr_0_l, Z.lor_0_r. auto. Qed.

(** [base64.b64encode] computes the base64 of RFC 4648 on every list of
    bytes. *)
Lemma b64encode_base64 (l : bytes) :
  Forall isByte l -> base64.b64encode l = RFC4648.base64 l.
Proof.
  assert (Z0 : isByte 0) by (unfold isByte; lia).
  assert (G : forall n (l : bytes), (List.length l <= n)%nat -> Forall isByte l ->
                base64.b64encode l = RFC4648.base64 l).
  { clear l. induction n as [|n IH]; intros l Hl Hb.
    - destruct l; [reflexivity | cbn in Hl; lia].
    - destruct l as [|a [|b [|c rest]]]; cbn [base64.b64encode RFC4648.base64].
      + reflexivity.
      + inversion Hb as [|? ? Ha _]; subst.
        destruct (sextet0 a 0 Ha ltac:(lia)) as [E0 R0].
        destruct (sextet1 a 0 0 Ha Z0 Z0) as [E1 R1].
        rewrite <- (proj1 (lor_0_shiftr _)) in E1, R1.
        rewrite !Z.add_0_r in *.
        rewrite !digit_alphabetChar by assumption.
        rewrite E0, E1. reflexivity.
      + inversion Hb as [|? ? Ha Hb']; subst.
        inversion Hb' as [|? ? Hb0 _]; subst.
        destruct (sextet0 a (b * 256) Ha ltac:(unfold isByte in Hb0; lia)) as [E0 R0].
        destruct (sextet1 a b 0 Ha Hb0 Z0) as [E1 R1].
        destruct (sextet2 a b 0 Ha Hb0 Z0) as [E2 R2].
        rewrite <- (proj2 (lor_0_shiftr _)) in E2, R2.
        rewrite !Z.add_0_r in *.
        rewrite !digit_alphabetChar by assumption.
        rewrite E0, E1, E2. reflexivity.
      + inversion Hb as [|? ? Ha Hb']; subst.
        inversion Hb' as [|? ? Hb0 Hb'']; subst.
        inversion Hb'' as [|? ? Hc Hrest]; subst.
        destruct (sextet0 a (b * 256 + c) Ha
                    ltac:(unfold isByte in Hb0, Hc; lia)) as [E0 R0].
        rewrite Z.add_assoc in E0.
        destruct (sextet1 a b c Ha Hb0 Hc) as [E1 R1].
        destruct (sextet2 a b c Ha Hb0 Hc) as [E2 R2].
        destruct (sextet3 a b c Ha Hb0 Hc) as [E3 R3].
        rewrite !digit_alphabetChar by assumption.
        rewrite E0, E1, E2, E3.
        rewrite (IH rest) by (cbn in Hl; lia || exact Hrest).
        reflexivity. }
  exact (G (List.length l) l (le_n _)).
Qed.

Lemma encode_isByte (s : string) : Forall isByte (encode s).
Proof.
  induction s as [|c rest IH]; cbn [encode]; [constructor|].
  apply Forall_app. split; [|exact IH].
  unfold encodeChar.
  destruct c as [[] [] [] [] [] [] [] []]; vm_compute;
    repeat constructor; discriminate.
Qed.

(** C7. For every handshake key K, the Sec-WebSocket-Accept token that
    the handshake computes is base64(SHA1(K +
    "258EAFA5-E914-47DA-95CA-C5AB0DC85B11")), with SHA1 the function of
    FIPS 180-4 and base64 the encoding of RFC 4648, and it is the token
    the 101 response carries; for the sample key of RFC 6455 the token
    is "s3pPLMBiTxaQ9kYGzzhZRbK+xOo=". *)
Theorem handshake_accept_token (key : string) (sock : bytes) :
  encode (handshake_accept key) = specAcceptToken (encode key)
  /\ handshake_accept key = decode (specAcceptToken (encode key))
  /\ handshake sock key
     = (sock
        ++ encode ("HTTP/1.1 101 Switching Protocols" ++ CRLF
                   ++ "Upgrade: websocket" ++ CRLF
                   ++ "Connection: Upgrade" ++ CRLF
                   ++ "Sec-WebSocket-Accept: ")
        ++ specAcceptToken (encode key)
        ++ encode (CRLF ++ CRLF))%list
  /\ handshake_accept "dGhlIHNhbXBsZSBub25jZQ==" = "s3pPLMBiTxaQ9kYGzzhZRbK+xOo="
  /\ specAcceptToken (encode "dGhlIHNhbXBsZSBub25jZQ==")
     = encode "s3pPLMBiTxaQ9kYGzzhZRbK+xOo=".
Proof.
  assert (B : base64.b64encode (hashlib.sha1 (encode (key ++ guid)))
              = specAcceptToken (encode key)).
  { unfold specAcceptToken.
    rewrite b64encode_base64 by apply sha1_isByte.
    rewrite sha1_SHA1 by apply encode_isByte.
    rewrite encode_app. reflexivity. }
  assert (A : encode (handshake_accept key) = specAcceptToken (encode key)).
  { unfold handshake_accept.
    rewrite encode_decode by apply b64encode_ascii. exact B. }
  split; [exact A|].
  split; [unfold handshake_accept; rewrite B; reflexivity|].
  split.
  { unfold handshake, handshake_response.
    rewrite <- A. rewrite !encode_app, <- !app_assoc. reflexivity. }
  split; vm_compute; reflexivity.
Qed.

(** The sample key of RFC 6455, section 1.3. *)
Example handshake_accept_rfc6455 :
  handshake_accept "dGhlIHNhbXBsZSBub25jZQ==" = "s3pPLMBiTxaQ9kYGzzhZRbK+xOo=".
Proof. vm_compute. reflexivity. Qed.

(** The test vector of FIPS 180 for "abc". *)
Example sha1_abc :
  hashlib.sha1 (encode "abc")
  = [0xA9; 0x99; 0x3E; 0x36; 0x47; 0x06; 0x81; 0x6A; 0xBA; 0x3E;
     0x25; 0x71; 0x78; 0x50; 0xC2; 0x6C; 0x9C; 0xD0; 0xD8; 0x9D].
Proof. vm_compute. reflexivity. Qed.

(** ** Random placement *)

Lemma forUpTo_push (f : Z -> Pos) (length : Z) (n : nat) :
  forall i acc, Z.to_nat (length - i) = n ->
    forUpTo length (fun i cells => push cells (f i)) i acc
    = (acc ++ map (fun k => f (i + Z.of_nat k)) (seq 0 n))%list.
Proof.
  induction n as [|n IH]; intros i acc Hn;
    rewrite forUpTo_equation_1;
    destruct (Z_lt_dec i length) as [Hlt|Hge]; cbn.
  - lia.
  - rewrite app_nil_r. reflexivity.
  - rewrite IH by lia. unfold push. rewrite <- app_assoc. cbn [app].
    rewrite Z.add_0_r. do 2 f_equal.
    rewrite <- seq_shift, map_map. apply map_ext. intros k. f_equal. lia.
  - lia.
Qed.



Lemma floor_lt (r : Q) (k : Z) :
  (r < 1)%Q -> 0 < k -> Math_floor (r * inject_Z k) < k.
Proof.
  intros Hr Hk. unfold Math_floor.
  rewrite Zlt_Qlt.
  apply Qle_lt_trans with (r * inject_Z k)%Q; [apply Qfloor_le|].
  rewrite <- (Qmult_1_l (inject_Z k)) at 2.
  apply Qmult_lt_compat_r; [|exact Hr].
  change 0%Q with (inject_Z 0). rewrite <- Zlt_Qlt. exact Hk.
Qed.


Lemma mapRand_Forall2 {A B : Type} (R : A -> B -> Prop) (f : A -> Rand B)
  (src : nat -> Q) (l : list A) :
  (forall a, In a l -> forall n, R a (fst (f a src n))) ->
  forall n, Forall2 R l (fst (mapRand f l src n)).
Proof.
  induction l as [|a rest IH]; intros H n; cbn.
  - constructor.
  - unfold bind at 1. specialize (H a (or_introl eq_refl) n) as Ha.
    destruct (f a src n) as [b n1]. unfold bind at 1.
    specialize (IH (fun a' Ha' => H a' (or_intror Ha')) n1).
    destruct (mapRand f rest src n1) as [bs n2]. cbn in *.
    constructor; assumption.
Qed.

Lemma generatedFleet_mapRand (gs : GameState) (size : Z) (src : nat -> Q) :
  generatedFleet gs size src
  = fst (mapRand (generateShip size) (ships (placement gs)) src 0%nat).
Proof.
  unfold generatedFleet, generateRandomPlacement. unfold bind at 1.
  destruct (mapRand (generateShip size) (ships (placement gs)) src 0%nat).
  reflexivity.
Qed.

Lemma generateShip_unfold (size : Z) (ship : Ship) (src : nat -> Q) (n : nat) :
  generateShip size ship src n
  = let o := if negb (Qle_bool (src n) (1 # 2)) then "horizontal" else "vertical" in
    let (cells, n') := _generateRandomPositions (ship_length ship) o size src (S n) in
    (mkGeneratedShip (ship_id ship) (ship_type ship) cells o, n').
Proof. reflexivity. Qed.




Lemma validSource_high : validSource highSource.
Proof. intros n. unfold highSource, Qle, Qlt; cbn. lia. Qed.





(** * Further properties of the client *)

(** ** Reset and the shape of the fleet *)

Lemma set_placed_false_idem (l : list Ship) :
  map (fun ship => set_placed ship false) (map (fun ship => set_placed ship false) l)
  = map (fun ship => set_placed ship false) l.
Proof. rewrite map_map. apply map_ext. intros sh. reflexivity. Qed.

Lemma set_placed_false_markPlaced (shipId : string) (l : list Ship) :
  map (fun ship => set_placed ship false) (markPlaced shipId l)
  = map (fun ship => set_placed ship false) l.
Proof.
  induction l as [|sh rest IH]; cbn; [reflexivity|].
  destruct (String.eqb (ship_id sh) shipId); cbn; [reflexivity|].
  rewrite IH. reflexivity.
Qed.

Lemma shipsShape_fresh : shipsShape GameState0.
Proof. split; reflexivity. Qed.

Lemma shipsShape_step (s s' : GameState) : shipsShape s -> step s s' -> shipsShape s'.
Proof.
  intros [Hb Hs] St.
  destruct St; try (split; assumption).
  - split; [exact Hb|]. cbn. rewrite set_placed_false_idem. exact Hs.
  - unfold switchScreen. destruct b; split; assumption.
  - unfold initDefenseBoard in H. destruct (emptyBoard _); [|discriminate].
    injection H as <-. split; assumption.
  - unfold initAttackBoard in H. destruct (emptyBoard _); [|discriminate].
    injection H as <-. split; assumption.
  - unfold placeShip. destruct (find _ _); [|split; assumption].
    split; [exact Hb|]. cbn. rewrite set_placed_false_markPlaced. exact Hs.
  - split; [exact Hb|]. cbn. rewrite set_placed_false_idem. exact Hs.
  - split; [exact Hb|]. cbn. rewrite set_placed_false_idem. exact Hs.
Qed.

Lemma reachable_shipsShape (s : GameState) : reachable s -> shipsShape s.
Proof.
  induction 1 as [|s s' _ IH St].
  - apply shipsShape_fresh.
  - eapply shipsShape_step; eassumption.
Qed.

(** X1. In every state the client reaches, [init()] and [reset()] give
    back exactly the state of the freshly loaded script, and
    [resetPlacement()] gives back its placement: no name, id, placed
    ship, board, log entry or timer value survives. *)
Theorem reset_restores_fresh_state (s : GameState) (Hs : reachable s) :
  init s = GameState0
  /\ reset s = GameState0
  /\ placement (resetPlacement s) = placement GameState0.
Proof.
  destruct (reachable_shipsShape s Hs) as [Hb Hshape].
  destruct s as [cs pn pid mid bs [sel o placedL shipsL] g t].
  cbn in Hb, Hshape. subst bs.
  unfold reset, init, resetPlacement. cbn. rewrite Hshape.
  repeat split.
Qed.

Lemma reset_restores_fresh_state_witness :
  reachable playingState /\ playingState <> GameState0
  /\ reset playingState = GameState0.
Proof.
  assert (R : reachable playingState).
  { eapply reachable_step; [exact reachable_sampleState | apply step_storeMatch]. }
  split; [exact R|]. split; [discriminate|].
  exact (proj1 (proj2 (reset_restores_fresh_state playingState R))).
Defined.

(** ** placeShip and the placed flags *)

Lemma shipsShape_ids (s : GameState) :
  shipsShape s -> map ship_id (ships (placement s)) = fleetIds.
Proof.
  intros [_ Hs].
  apply (f_equal (map ship_id)) in Hs. rewrite map_map in Hs.
  cbn [ship_id set_placed] in Hs.
  rewrite (map_ext _ ship_id) in Hs by reflexivity. exact Hs.
Qed.

Lemma NoDup_fleetIds : NoDup fleetIds.
Proof.
  unfold fleetIds.
  repeat (constructor; [cbn; intros H;
                        repeat (destruct H as [H|H]; [discriminate H|]); exact H|]).
  constructor.
Qed.

Lemma map_mark_absent (shipId : string) (l : list Ship) :
  ~ In shipId (map ship_id l) ->
  map (fun sh => if String.eqb (ship_id sh) shipId then set_placed sh true else sh) l
  = l.
Proof.
  induction l as [|sh rest IH]; cbn; intros H; [reflexivity|].
  destruct (String.eqb_spec (ship_id sh) shipId) as [E|E].
  - exfalso. apply H. left. exact E.
  - rewrite IH; [reflexivity|]. intros Hin. apply H. right. exact Hin.
Qed.

Lemma markPlaced_map (shipId : string) (l : list Ship) :
  NoDup (map ship_id l) ->
  markPlaced shipId l
  = map (fun sh => if String.eqb (ship_id sh) shipId then set_placed sh true else sh) l.
Proof.
  induction l as [|sh rest IH]; cbn; intros Hnd; [reflexivity|].
  inversion Hnd as [|a l' Hnotin Hrest]; subst.
  destruct (String.eqb_spec (ship_id sh) shipId) as [E|E].
  - rewrite map_mark_absent; [reflexivity|]. rewrite <- E. exact Hnotin.
  - rewrite IH by exact Hrest. reflexivity.
Qed.

Lemma find_id_absent (shipId : string) (l : list Ship) :
  ~ In shipId (map ship_id l) ->
  find (fun sh => String.eqb (ship_id sh) shipId) l = None.
Proof.
  induction l as [|sh rest IH]; cbn; intros H; [reflexivity|].
  destruct (String.eqb_spec (ship_id sh) shipId) as [E|E].
  - exfalso. apply H. left. exact E.
  - apply IH. intros Hin. apply H. right. exact Hin.
Qed.

Lemma find_id_present (shipId : string) (l : list Ship) :
  In shipId (map ship_id l) ->
  exists ship, find (fun sh => String.eqb (ship_id sh) shipId) l = Some ship
               /\ In ship l /\ ship_id ship = shipId.
Proof.
  intros H.
  destruct (find (fun sh => String.eqb (ship_id sh) shipId) l) as [ship|] eqn:F.
  - exists ship. apply find_some in F. destruct F as [Hin E].
    apply String.eqb_eq in E. auto.
  - exfalso. apply in_map_iff in H. destruct H as (sh & E & Hin).
    pose proof (find_none _ _ F sh Hin) as N. cbn in N.
    rewrite E, String.eqb_refl in N. discriminate N.
Qed.

(** X2. [placeShip(shipId, positions)] with an id that no ship of the
    fleet has leaves the state as it is. With the id of a ship, in a
    state the client reaches, it flags that ship and no other, and
    appends one entry with the given cells and the current orientation
    to [placedShips]; it does so whether or not the ship was placed
    before. *)
Theorem placeShip_effect (s : GameState) (Hs : reachable s)
  (shipId : string) (cells : list Pos) :
  (~ In shipId (map ship_id (ships (placement s))) -> placeShip shipId cells s = s)
  /\ (In shipId (map ship_id (ships (placement s))) ->
      exists ship,
        In ship (ships (placement s)) /\ ship_id ship = shipId
        /\ placedShips (placement (placeShip shipId cells s))
           = (placedShips (placement s)
              ++ [mkPlacedShip shipId (ship_name ship) (ship_type ship)
                    (ship_length ship) true (orientation (placement s)) cells])%list
        /\ ships (placement (placeShip shipId cells s))
           = map (fun sh => if String.eqb (ship_id sh) shipId
                            then set_placed sh true else sh)
                 (ships (placement s))
        /\ orientation (placement (placeShip shipId cells s))
           = orientation (placement s)
        /\ selectedShip (placement (placeShip shipId cells s))
           = selectedShip (placement s)
        /\ game (placeShip shipId cells s) = game s).
Proof.
  split.
  - intros H. unfold placeShip. rewrite find_id_absent by exact H. reflexivity.
  - intros H.
    destruct (find_id_present shipId _ H) as (ship & F & Hin & E).
    exists ship. split; [exact Hin|]. split; [exact E|].
    unfold placeShip. rewrite F. cbn. unfold push. rewrite E.
    repeat split.
    apply markPlaced_map.
    rewrite (shipsShape_ids s (reachable_shipsShape s Hs)).
    exact NoDup_fleetIds.
Qed.

Lemma placeShip_effect_witness :
  reachable sampleState
  /\ List.length (placedShips (placement sampleState)) = 1%nat
  /\ List.length (placedShips (placement
        (placeShip "carrier" [mkPos 5 5] sampleState))) = 2%nat
  /\ placeShip "frigate" [mkPos 5 5] sampleState = sampleState.
Proof.
  split; [exact reachable_sampleState|].
  split; [reflexivity|]. split; [reflexivity|].
  apply (proj1 (placeShip_effect sampleState reachable_sampleState "frigate" [mkPos 5 5])).
  cbn. intros H. repeat (destruct H as [H|H]; [discriminate H|]). exact H.
Defined.

Lemma placedConsistent_fresh : placedConsistent GameState0.
Proof.
  intros ship Hin. cbn in Hin |- *.
  repeat (destruct Hin as [<-|Hin]; [split; [discriminate | intros []]|]).
  destruct Hin.
Qed.

Lemma placedConsistent_reset (s : GameState) : placedConsistent (resetPlacement s).
Proof.
  intros ship Hin. cbn in Hin |- *.
  apply in_map_iff in Hin. destruct Hin as (sh & <- & _). cbn.
  split; [discriminate | intros []].
Qed.

Lemma placedConsistent_placeShip (s : GameState) (shipId : string) (cells : list Pos) :
  shipsShape s -> placedConsistent s -> placedConsistent (placeShip shipId cells s).
Proof.
  intros Hshape Hc. unfold placeShip.
  destruct (find _ _) as [ship0|] eqn:F; [|exact Hc].
  apply find_some in F. destruct F as [Hin0 E0]. apply String.eqb_eq in E0.
  intros ship Hin. cbn in Hin |- *.
  rewrite markPlaced_map in Hin
    by (rewrite (shipsShape_ids s Hshape); exact NoDup_fleetIds).
  apply in_map_iff in Hin. destruct Hin as (sh & <- & Hsh).
  unfold push. rewrite map_app, in_app_iff. cbn [map In placed_id ship_id set_placed].
  destruct (String.eqb_spec (ship_id sh) shipId) as [E|E]; cbn [ship_placed ship_id set_placed].
  - split; [intros _|intros _; reflexivity]. right. left. congruence.
  - rewrite (Hc sh Hsh). split.
    + intros H. left. exact H.
    + intros [H|[H|[]]]; [exact H|]. exfalso. apply E. congruence.
Qed.

Lemma placedConsistent_step (s s' : GameState) :
  shipsShape s -> placedConsistent s -> step s s' -> placedConsistent s'.
Proof.
  intros Hshape Hc St.
  destruct St; try exact Hc;
    try (apply (placedConsistent_reset s));
    try (apply placedConsistent_placeShip; assumption).
  - unfold switchScreen. destruct b; exact Hc.
  - unfold initDefenseBoard in H. destruct (emptyBoard _); [|discriminate].
    injection H as <-. exact Hc.
  - unfold initAttackBoard in H. destruct (emptyBoard _); [|discriminate].
    injection H as <-. exact Hc.
Qed.

Lemma reachable_placedConsistent (s : GameState) : reachable s -> placedConsistent s.
Proof.
  induction 1 as [|s s' Hr IH St].
  - apply placedConsistent_fresh.
  - eapply placedConsistent_step; [apply reachable_shipsShape| |]; eassumption.
Qed.

(** X3. In every state the client reaches, a ship of the fleet is
    flagged as placed exactly when [placedShips] holds an entry with its
    id. *)
Theorem placed_flag_iff_entry (s : GameState) (Hs : reachable s) (ship : Ship)
  (Hin : In ship (ships (placement s))) :
  ship_placed ship = true
  <-> exists e, In e (placedShips (placement s)) /\ placed_id e = ship_id ship.
Proof.
  rewrite (reachable_placedConsistent s Hs ship Hin), in_map_iff. split.
  - intros (e & E & He). exists e. auto.
  - intros (e & He & E). exists e. auto.
Qed.

Lemma placed_flag_iff_entry_witness :
  reachable sampleState
  /\ In (mkShip "carrier" "Portaaviones" "AIRCRAFT_CARRIER" 5 true "horizontal")
        (ships (placement sampleState))
  /\ exists e, In e (placedShips (placement sampleState)) /\ placed_id e = "carrier".
Proof.
  assert (Hin : In (mkShip "carrier" "Portaaviones" "AIRCRAFT_CARRIER" 5 true "horizontal")
                   (ships (placement sampleState)))
    by (left; reflexivity).
  split; [exact reachable_sampleState|]. split; [exact Hin|].
  exact (proj1 (placed_flag_iff_entry sampleState reachable_sampleState _ Hin) eq_refl).
Defined.

(** ** Placing a ship by a click *)

Lemma calculateShipPositions_lineCells (x y len : Z) (o : string) :
  Part000.calculateShipPositions x y len o = lineCells x y len o.
Proof.
  unfold Part000.calculateShipPositions.
  rewrite (Part000_for_spec x y len o (Z.to_nat len)) by (f_equal; lia).
  reflexivity.
Qed.

Lemma in_lineCells (x y len : Z) (o : string) (p : Pos) :
  In p (lineCells x y len o) <-> exists i, 0 <= i < len /\ p = shipCell x y o i.
Proof.
  unfold lineCells. rewrite in_map_iff. split.
  - intros (k & <- & Hk). apply in_seq in Hk. exists (Z.of_nat k). split; [lia|reflexivity].
  - intros (i & Hi & ->). exists (Z.to_nat i). split.
    + rewrite Z2Nat.id by lia. reflexivity.
    + apply in_seq. lia.
Qed.

(** X4. For a ship of at least one cell, the placement that the board
    handlers compute with [calculateShipPositions] is valid exactly when
    the ship fits: from (x, y) its [len] cells end inside the board in
    the direction of the orientation, the other coordinate is on the
    board, and none of its cells is held by a placed ship. *)
Theorem isValidPlacement_of_line (x y len : Z) (o : string)
  (existingShips : list PlacedShip) (size : Z) (Hlen : 0 < len) :
  isValidPlacement (Part000.calculateShipPositions x y len o) existingShips size = true
  <-> (if String.eqb o "horizontal"
       then 0 <= x /\ x + len <= size /\ 0 <= y < size
       else 0 <= x < size /\ 0 <= y /\ y + len <= size)
      /\ forall i, 0 <= i < len -> ~ occupied existingShips (shipCell x y o i).
Proof.
  rewrite calculateShipPositions_lineCells, isValidPlacement_true. split.
  - intros H. split.
    + assert (H0 : inGrid size (shipCell x y o 0))
        by (apply H, in_lineCells; exists 0; split; [lia|reflexivity]).
      assert (H1 : inGrid size (shipCell x y o (len - 1)))
        by (apply H, in_lineCells; exists (len - 1); split; [lia|reflexivity]).
      unfold inGrid, shipCell in H0, H1.
      destruct (String.eqb o "horizontal"); cbn in H0, H1; lia.
    + intros i Hi. apply H, in_lineCells. exists i. auto.
  - intros [Hfit Hfree] p Hp. apply in_lineCells in Hp.
    destruct Hp as (i & Hi & ->). split; [|apply Hfree; exact Hi].
    unfold inGrid, shipCell.
    destruct (String.eqb o "horizontal"); cbn; lia.
Qed.

Lemma isValidPlacement_of_line_witness :
  0 < 3
  /\ isValidPlacement (Part000.calculateShipPositions 7 0 3 "horizontal")
       (placedShips (placement sampleState)) 10 = true
  /\ isValidPlacement (Part000.calculateShipPositions 8 0 3 "horizontal")
       (placedShips (placement sampleState)) 10 = false.
Proof.
  split; [lia|]. split; [|reflexivity].
  apply (isValidPlacement_of_line 7 0 3 "horizontal"); [lia|].
  split; [cbn; lia|].
  intros i Hi (sh & Hsh & Hp).
  destruct Hsh as [<-|[]].
  assert (Hp' : In (mkPos (7 + i) 0)
                   [mkPos 0 0; mkPos 0 1; mkPos 0 2; mkPos 0 3; mkPos 0 4])
    by exact Hp.
  cbn [In] in Hp'.
  repeat (destruct Hp' as [Hp'|Hp'];
          [apply (f_equal pos_x) in Hp'; cbn [pos_x] in Hp'; lia|]).
  exact Hp'.
Defined.

Lemma getSelectedShip_some (s : GameState) (ship : Ship) :
  getSelectedShip s = Some ship ->
  In ship (ships (placement s))
  /\ find (fun sh => String.eqb (ship_id sh) (ship_id ship)) (ships (placement s))
     = Some ship.
Proof.
  unfold getSelectedShip.
  destruct (selectedShip (placement s)) as [sel|]; [|discriminate].
  destruct (String.eqb sel ""); [discriminate|].
  intros F. pose proof (find_some _ _ F) as [Hin E].
  apply String.eqb_eq in E. rewrite E. auto.
Qed.

Lemma placementBoard_click_cases (x y : Z) (s : GameState) :
  placementBoard_click x y s = s
  \/ exists ship,
       In ship (ships (placement s))
       /\ ship_placed ship = false
       /\ isValidPlacement (positions (clickEntry s ship x y))
            (placedShips (placement s)) (boardSize s) = true
       /\ placementBoard_click x y s
          = selectShip None (placeShip (ship_id ship) (positions (clickEntry s ship x y)) s)
       /\ placedShips (placement (placementBoard_click x y s))
          = (placedShips (placement s) ++ [clickEntry s ship x y])%list
       /\ boardSize (placementBoard_click x y s) = boardSize s
       /\ selectedShip (placement (placementBoard_click x y s)) = None.
Proof.
  unfold placementBoard_click.
  destruct (getSelectedShip s) as [ship|] eqn:G; [|left; reflexivity].
  destruct (ship_placed ship) eqn:P; [left; reflexivity|].
  destruct (isValidPlacement _ _ _) eqn:V; [|left; reflexivity].
  right. exists ship.
  destruct (getSelectedShip_some s ship G) as [Hin F].
  split; [exact Hin|]. split; [exact P|]. split; [exact V|].
  split; [reflexivity|].
  unfold placeShip. rewrite F. cbn. repeat split.
Qed.

(** X5. A click on the placement board either leaves the state as it is
    or drops the selected ship and clears the selection, so running the
    listener again for the same click changes nothing more: the
    listeners that [setupPlacementBoard] adds each time it is called do
    not place a ship twice. *)
Theorem placementBoard_click_idempotent (x y : Z) (s : GameState) :
  placementBoard_click x y (placementBoard_click x y s)
  = placementBoard_click x y s.
Proof.
  destruct (placementBoard_click_cases x y s)
    as [E | (ship & _ & _ & _ & _ & _ & _ & Hsel)].
  - rewrite E. exact E.
  - unfold placementBoard_click at 1. unfold getSelectedShip.
    rewrite Hsel. reflexivity.
Qed.

Lemma manuallyPlaced_reachable (s : GameState) : manuallyPlaced s -> reachable s.
Proof.
  induction 1 as [s Hs | s shipId _ IH | s _ IH | s x y _ IH].
  - eapply reachable_step; [exact Hs | apply step_resetPlacement].
  - eapply reachable_step; [exact IH | apply step_selectShip].
  - eapply reachable_step; [exact IH | apply step_rotateShip].
  - destruct (placementBoard_click_cases x y s)
      as [E | (ship & _ & _ & _ & E & _)]; rewrite E; [exact IH|].
    eapply reachable_step; [|apply step_selectShip].
    eapply reachable_step; [exact IH | apply step_placeShip].
Qed.

Lemma placedDisjoint_snoc (l : list PlacedShip) (e : PlacedShip) :
  placedDisjoint l ->
  (forall a p, In a l -> In p (positions a) -> In p (positions e) -> False) ->
  placedDisjoint (l ++ [e]).
Proof.
  intros Hl He i j a b p Hij Ha Hb Hpa Hpb.
  destruct (Nat.lt_ge_cases i (List.length l)) as [Hi|Hi];
    destruct (Nat.lt_ge_cases j (List.length l)) as [Hj|Hj].
  - rewrite nth_error_app1 in Ha, Hb by assumption.
    exact (Hl i j a b p Hij Ha Hb Hpa Hpb).
  - rewrite nth_error_app1 in Ha by assumption.
    rewrite nth_error_app2 in Hb by assumption.
    destruct (j - List.length l)%nat as [|k]; cbn in Hb.
    + injection Hb as <-. exact (He a p (nth_error_In _ _ Ha) Hpa Hpb).
    + destruct k; discriminate Hb.
  - rewrite nth_error_app2 in Ha by assumption.
    rewrite nth_error_app1 in Hb by assumption.
    destruct (i - List.length l)%nat as [|k]; cbn in Ha.
    + injection Ha as <-. exact (He b p (nth_error_In _ _ Hb) Hpb Hpa).
    + destruct k; discriminate Ha.
  - rewrite nth_error_app2 in Ha, Hb by assumption.
    destruct (i - List.length l)%nat as [|k] eqn:Ei; cbn in Ha;
      [|destruct k; discriminate Ha].
    destruct (j - List.length l)%nat as [|k] eqn:Ej; cbn in Hb;
      [|destruct k; discriminate Hb].
    lia.
Qed.

Lemma shipsShape_lengths (s : GameState) (ship : Ship) :
  shipsShape s -> In ship (ships (placement s)) -> 2 <= ship_length ship <= 5.
Proof.
  intros [_ Hs] Hin.
  apply (in_map (fun sh => set_placed sh false)) in Hin. rewrite Hs in Hin.
  cbn in Hin.
  repeat (destruct Hin as [Hin|Hin];
          [apply (f_equal ship_length) in Hin; cbn in Hin; lia|]).
  destruct Hin.
Qed.

Lemma lineCells_head (x y len : Z) (o : string) :
  0 < len -> hd_error (lineCells x y len o) = Some (mkPos x y).
Proof.
  intros Hlen. unfold lineCells.
  destruct (Z.to_nat len) as [|n] eqn:E; [lia|].
  cbn. unfold shipCell. rewrite !Z.add_0_r.
  destruct (String.eqb o "horizontal"); reflexivity.
Qed.

Lemma placedInvariant_click (x y : Z) (s : GameState) :
  reachable s -> placedInvariant s -> placedInvariant (placementBoard_click x y s).
Proof.
  intros Hr (Hgrid & Hdis & Hline & Hnd).
  destruct (placementBoard_click_cases x y s)
    as [E | (ship & Hin & Hp & Hv & _ & Hplaced & Hsize & _)].
  - rewrite E. repeat split; assumption.
  - unfold placedInvariant. rewrite Hplaced, Hsize.
    pose proof (proj1 (isValidPlacement_true _ _ _) Hv) as Hvalid.
    split; [|split; [|split]].
    + apply Forall_app. split; [exact Hgrid|].
      constructor; [|constructor].
      apply Forall_forall. intros p Hpin. apply (Hvalid p Hpin).
    + apply placedDisjoint_snoc; [exact Hdis|].
      intros a p Ha Hpa Hpe.
      apply (proj2 (Hvalid p Hpe)). exists a. auto.
    + apply Forall_app. split; [exact Hline|].
      constructor; [|constructor].
      exists x, y. split; [|reflexivity].
      cbn [positions clickEntry]. rewrite calculateShipPositions_lineCells.
      apply lineCells_head.
      pose proof (shipsShape_lengths s ship (reachable_shipsShape s Hr) Hin). lia.
    + rewrite map_app. cbn [map placed_id clickEntry].
      apply NoDup_app; [exact Hnd | constructor; [intros []|constructor] |].
      intros a Ha [<-|[]].
      apply (reachable_placedConsistent s Hr ship Hin) in Ha. congruence.
Qed.

Lemma manuallyPlaced_placedInvariant (s : GameState) :
  manuallyPlaced s -> placedInvariant s.
Proof.
  induction 1 as [s Hr | s shipId Hm IH | s Hm IH | s x y Hm IH].
  - unfold placedInvariant. cbn.
    split; [constructor|]. split; [|split; constructor].
    intros i j a b p _ Ha. destruct i; discriminate Ha.
  - exact IH.
  - exact IH.
  - apply placedInvariant_click; [apply manuallyPlaced_reachable|]; assumption.
Qed.

Lemma manuallyPlaced_manualSample : manuallyPlaced manualSample.
Proof.
  unfold manualSample.
  apply manual_click, manual_select, manual_click, manual_rotate, manual_select,
    manual_click, manual_rotate, manual_select, manual_reset.
  exact reachable_sampleState.
Defined.

(** X6. While the ships are placed by hand (after [resetPlacement()],
    by selecting, rotating and clicking on the board), the placed ships
    keep the board invariant: every cell lies inside the board, no two
    placed ships share a cell, no ship is placed twice, and every entry
    is the line of its ship's length that starts at its first cell and
    runs in the orientation recorded with it. *)
Theorem manual_placement_invariant (s : GameState) (Hs : manuallyPlaced s) :
  Forall (fun e => Forall (inGrid 10) (positions e)) (placedShips (placement s))
  /\ placedDisjoint (placedShips (placement s))
  /\ NoDup (map placed_id (placedShips (placement s)))
  /\ Forall entryIsLine (placedShips (placement s)).
Proof.
  destruct (manuallyPlaced_placedInvariant s Hs) as (Hgrid & Hdis & Hline & Hnd).
  destruct (reachable_shipsShape s (manuallyPlaced_reachable s Hs)) as [Hb _].
  rewrite Hb in Hgrid. auto.
Qed.

Lemma manual_placement_invariant_witness :
  manuallyPlaced manualSample
  /\ map placed_id (placedShips (placement manualSample)) = ["carrier"; "battleship"]
  /\ placedDisjoint (placedShips (placement manualSample)).
Proof.
  split; [exact manuallyPlaced_manualSample|]. split; [reflexivity|].
  exact (proj1 (proj2 (manual_placement_invariant manualSample
                         manuallyPlaced_manualSample))).
Defined.

(** X7. For a placement done by hand, what [submitShipPlacement] sends
    for each placed ship (its type, the first of its cells as start, the
    orientation recorded with it) determines the ship's cells: they are
    the line of the ship's length from the start cell in that
    orientation. *)
Theorem shipsData_determines_cells (s : GameState) (Hs : manuallyPlaced s) :
  Forall2
    (fun e d =>
       datum_type d = placed_type e
       /\ exists x0 y0,
            datum_start d = Some (mkPos x0 y0)
            /\ positions e
               = Part000.calculateShipPositions x0 y0 (placed_length e)
                   (datum_orientation d))
    (placedShips (placement s)) (shipsData (placedShips (placement s))).
Proof.
  destruct (manuallyPlaced_placedInvariant s Hs) as (_ & _ & Hline & _).
  unfold shipsData.
  induction Hline as [|e rest (x0 & y0 & Hh & Hp) _ IH]; cbn; constructor.
  - split; [reflexivity|]. exists x0, y0. cbn. auto.
  - exact IH.
Qed.

Lemma shipsData_determines_cells_witness :
  manuallyPlaced manualSample
  /\ shipsData (placedShips (placement manualSample))
     = [ mkShipDatum "AIRCRAFT_CARRIER" (Some (mkPos 0 0)) "vertical";
         mkShipDatum "BATTLESHIP" (Some (mkPos 2 3)) "horizontal" ]
  /\ List.length (shipsData (placedShips (placement manualSample)))
     = List.length (placedShips (placement manualSample)).
Proof.
  split; [exact manuallyPlaced_manualSample|]. split; [reflexivity|].
  symmetry.
  exact (Forall2_length
           (shipsData_determines_cells manualSample manuallyPlaced_manualSample)).
Defined.

Lemma placedIds_step (s s' : GameState) :
  shipsShape s ->
  incl (map placed_id (placedShips (placement s))) fleetIds ->
  step s s' ->
  incl (map placed_id (placedShips (placement s'))) fleetIds.
Proof.
  intros Hshape Hi St.
  destruct St; try exact Hi; try (intros a []).
  - unfold switchScreen. destruct b; exact Hi.
  - unfold initDefenseBoard in H. destruct (emptyBoard _); [|discriminate].
    injection H as <-. exact Hi.
  - unfold initAttackBoard in H. destruct (emptyBoard _); [|discriminate].
    injection H as <-. exact Hi.
  - unfold placeShip.
    destruct (find _ _) as [ship|] eqn:F; [|exact Hi].
    apply find_some in F. destruct F as [Hin _].
    apply (in_map ship_id) in Hin. rewrite (shipsShape_ids s Hshape) in Hin.
    cbn [placement placedShips set_placement set_placedShips set_ships].
    unfold push. rewrite map_app. apply incl_app; [exact Hi|].
    intros a [<-|[]]. exact Hin.
Qed.

Lemma reachable_placedIds (s : GameState) :
  reachable s -> incl (map placed_id (placedShips (placement s))) fleetIds.
Proof.
  induction 1 as [|s s' Hr IH St].
  - intros a [].
  - eapply placedIds_step; [apply reachable_shipsShape| |]; eassumption.
Qed.

(** X8. For a placement done by hand, [allShipsPlaced()] is true exactly
    when [placedShips] has five entries. *)
Theorem allShipsPlaced_iff_five_entries (s : GameState) (Hs : manuallyPlaced s) :
  allShipsPlaced s = true <-> List.length (placedShips (placement s)) = 5%nat.
Proof.
  pose proof (manuallyPlaced_reachable s Hs) as Hr.
  pose proof (reachable_shipsShape s Hr) as Hshape.
  pose proof (reachable_placedConsistent s Hr) as Hc.
  pose proof (reachable_placedIds s Hr) as Hincl.
  destruct (manuallyPlaced_placedInvariant s Hs) as (_ & _ & _ & Hnd).
  pose proof (shipsShape_ids s Hshape) as Hids.
  set (ids := map placed_id (placedShips (placement s))) in *.
  assert (Hlen : List.length ids = List.length (placedShips (placement s)))
    by (unfold ids; apply length_map).
  rewrite <- Hlen.
  assert (A : allShipsPlaced s = true <-> incl fleetIds ids).
  { unfold allShipsPlaced. rewrite forallb_forall. split.
    - intros H a Ha. rewrite <- Hids in Ha. apply in_map_iff in Ha.
      destruct Ha as (ship & <- & Hin). apply (Hc ship Hin), H, Hin.
    - intros H ship Hin. apply (Hc ship Hin), H.
      rewrite <- Hids. apply in_map. exact Hin. }
  rewrite A. split.
  - intros H.
    pose proof (NoDup_incl_length NoDup_fleetIds H) as L1.
    pose proof (NoDup_incl_length Hnd Hincl) as L2.
    cbn in L1, L2. lia.
  - intros L. apply (NoDup_length_incl Hnd); [rewrite L; cbn; lia | exact Hincl].
Qed.

Lemma allShipsPlaced_iff_five_entries_witness :
  manuallyPlaced manualSample
  /\ List.length (placedShips (placement manualSample)) = 2%nat
  /\ allShipsPlaced manualSample <> true.
Proof.
  assert (L : List.length (placedShips (placement manualSample)) = 2%nat)
    by (vm_compute; reflexivity).
  split; [exact manuallyPlaced_manualSample|]. split; [exact L|].
  intros H.
  apply (allShipsPlaced_iff_five_entries manualSample manuallyPlaced_manualSample) in H.
  rewrite L in H. discriminate H.
Defined.

(** ** Random placement through handleRandomPlacement *)

Lemma generateRandomPlacement_result (gs : GameState) (size : Z) (src : nat -> Q)
  (n : nat) :
  fst (generateRandomPlacement gs (Some size) src n)
  = mkPlacementResult true
      (fst (mapRand (generateShip size) (ships (placement gs)) src n)).
Proof.
  unfold generateRandomPlacement. unfold bind at 1.
  destruct (mapRand (generateShip size) (ships (placement gs)) src n).
  reflexivity.
Qed.

Lemma generateShip_id (size : Z) (ship : Ship) (src : nat -> Q) (n : nat) :
  gen_id (fst (generateShip size ship src n)) = ship_id ship.
Proof.
  rewrite generateShip_unfold. cbv zeta.
  destruct (_generateRandomPositions _ _ _ _ _). reflexivity.
Qed.

(** X9. [handleRandomPlacement()] in a state the client reaches (and
    with no other event while it waits) places the whole fleet: all five
    ships are flagged, [placedShips] holds the generated cells of the
    five ships in the order of the fleet, and every entry is recorded
    with the orientation ['horizontal'], which [resetPlacement()] has
    just set, whatever orientation was drawn for the ship. *)
Theorem handleRandomPlacement_places_fleet (s : GameState) (Hs : reachable s)
  (src : nat -> Q) (n : nat) :
  allShipsPlaced (handleRandomPlacement src n s) = true
  /\ map placed_id (placedShips (placement (handleRandomPlacement src n s)))
     = fleetIds
  /\ map positions (placedShips (placement (handleRandomPlacement src n s)))
     = map gen_positions
         (result_ships
            (fst (generateRandomPlacement (resetPlacement s) (Some 10) src n)))
  /\ Forall (fun e => placed_orientation e = "horizontal")
            (placedShips (placement (handleRandomPlacement src n s))).
Proof.
  destruct (reachable_shipsShape s Hs) as [Hb Hshape].
  unfold handleRandomPlacement.
  replace (boardSize (resetPlacement s)) with 10 by (symmetry; exact Hb).
  rewrite generateRandomPlacement_result.
  assert (F2 : Forall2 (fun ship g => gen_id g = ship_id ship)
                 (ships (placement (resetPlacement s)))
                 (fst (mapRand (generateShip 10)
                         (ships (placement (resetPlacement s))) src n))).
  { apply mapRand_Forall2. intros ship _ k. apply generateShip_id. }
  destruct (fst (mapRand (generateShip 10)
                   (ships (placement (resetPlacement s))) src n)) as [|g1 gens];
    destruct s as [cs pn pid mid bs [sel o placedL shipsL] g t];
    cbn in Hb, Hshape; subst bs;
    unfold resetPlacement in *; cbn in F2 |- *; rewrite Hshape in *;
    cbn in F2.
  - inversion F2.
  - inversion F2 as [|? ? ? ? E1 F3]; subst. clear F2.
    inversion F3 as [|? g2 ? ? E2 F4]; subst. clear F3.
    inversion F4 as [|? g3 ? ? E3 F5]; subst. clear F4.
    inversion F5 as [|? g4 ? ? E4 F6]; subst. clear F5.
    inversion F6 as [|? g5 ? ? E5 F7]; subst. clear F6.
    inversion F7; subst. clear F7.
    destruct g1 as [i1 t1 p1 o1], g2 as [i2 t2 p2 o2], g3 as [i3 t3 p3 o3],
      g4 as [i4 t4 p4 o4], g5 as [i5 t5 p5 o5].
    cbn in E1, E2, E3, E4, E5. subst i1 i2 i3 i4 i5.
    unfold placeGenerated. cbn.
    split; [reflexivity|]. split; [reflexivity|]. split; [reflexivity|].
    repeat constructor.
Qed.

Lemma handleRandomPlacement_places_fleet_witness :
  reachable sampleState
  /\ allShipsPlaced (handleRandomPlacement cyclingSource 0%nat sampleState) = true
  /\ map gen_orientation
       (result_ships
          (fst (generateRandomPlacement (resetPlacement sampleState) (Some 10)
                  cyclingSource 0%nat)))
     = ["vertical"; "vertical"; "horizontal"; "horizontal"; "vertical"]
  /\ Forall (fun e => placed_orientation e = "horizontal")
       (placedShips (placement (handleRandomPlacement cyclingSource 0%nat sampleState))).
Proof.
  split; [exact reachable_sampleState|].
  pose proof (handleRandomPlacement_places_fleet sampleState reachable_sampleState
                cyclingSource 0%nat) as (H1 & _ & _ & H4).
  split; [exact H1|]. split; [vm_compute; reflexivity | exact H4].
Defined.

(** ** Where the random ships can lie *)

Lemma generateRandomPositions_margin (len : Z) (o : string) (size : Z)
  (src : nat -> Q) (n : nat) :
  validSource src -> 0 <= len < size ->
  Forall (fun p => if String.eqb o "horizontal"
                   then pos_x p <= size - 2 else pos_y p <= size - 2)
         (fst (_generateRandomPositions len o size src n)).
Proof.
  intros Hsrc Hlen.
  destruct (Hsrc n) as [Hn0 Hn1]. destruct (Hsrc (S n)) as [Hm0 Hm1].
  unfold _generateRandomPositions.
  destruct (String.eqb o "horizontal") eqn:Eo;
    unfold bind, Math_random, ret; cbn [fst];
    rewrite (forUpTo_push _ len (Z.to_nat len)) by (f_equal; lia);
    cbn [app]; apply Forall_forall; intros p Hp;
    apply in_map_iff in Hp; destruct Hp as (k & <- & Hk);
    apply in_seq in Hk; cbn [pos_x pos_y].
  - pose proof (floor_lt (src n) (size - len) Hn1 ltac:(lia)). lia.
  - pose proof (floor_lt (src (S n)) (size - len) Hm1 ltac:(lia)). lia.
Qed.

(** X10. On a board of size 6 or more, whatever the random choices are,
    no ship that [generateRandomPlacement] returns reaches the last
    column when it is horizontal, nor the last row when it is vertical:
    along its direction its cells stay at coordinates up to
    boardSize - 2. *)
Theorem generateRandomPlacement_never_last_line (gs : GameState) (size : Z)
  (src : nat -> Q)
  (Hgs : reachable gs) (Hsize : 6 <= size) (Hsrc : validSource src) :
  Forall (fun sh =>
            Forall (fun p => if String.eqb (gen_orientation sh) "horizontal"
                             then pos_x p <= size - 2 else pos_y p <= size - 2)
                   (gen_positions sh))
         (generatedFleet gs size src).
Proof.
  rewrite generatedFleet_mapRand.
  assert (F2 : Forall2
                 (fun (ship : Ship) sh =>
                    Forall (fun p => if String.eqb (gen_orientation sh) "horizontal"
                                     then pos_x p <= size - 2 else pos_y p <= size - 2)
                           (gen_positions sh))
                 (ships (placement gs))
                 (fst (mapRand (generateShip size) (ships (placement gs)) src 0%nat))).
  { apply mapRand_Forall2. intros ship Hin n.
    pose proof (shipsShape_lengths gs ship (reachable_shipsShape gs Hgs) Hin) as Hl.
    rewrite generateShip_unfold. cbv zeta.
    pose proof (generateRandomPositions_margin (ship_length ship)
                  (if negb (Qle_bool (src n) (1 # 2)) then "horizontal" else "vertical")
                  size src (S n) Hsrc ltac:(lia)) as M.
    destruct (_generateRandomPositions _ _ _ _ _). exact M. }
  induction F2; constructor; assumption.
Qed.

Lemma generateRandomPlacement_never_last_line_witness :
  reachable sampleState /\ 6 <= 10 /\ validSource highSource
  /\ Forall (fun sh =>
               Forall (fun p => if String.eqb (gen_orientation sh) "horizontal"
                                then pos_x p <= 10 - 2 else pos_y p <= 10 - 2)
                      (gen_positions sh))
            (generatedFleet sampleState 10 highSource).
Proof.
  split; [exact reachable_sampleState|]. split; [lia|].
  split; [exact validSource_high|].
  refine (generateRandomPlacement_never_last_line sampleState 10 highSource
            reachable_sampleState _ validSource_high).
  lia.
Defined.

(** ** Writing a cell of a board *)

Lemma nth_error_replace {A : Type} (l : list A) (k : nat) (v : A) :
  (k < List.length l)%nat ->
  nth_error (firstn k l ++ v :: skipn (S k) l) k = Some v
  /\ (forall j, j <> k ->
        nth_error (firstn k l ++ v :: skipn (S k) l) j = nth_error l j)
  /\ List.length (firstn k l ++ v :: skipn (S k) l) = List.length l.
Proof.
  revert k. induction l as [|a rest IH]; intros k Hk; cbn in Hk; [lia|].
  destruct k as [|k].
  - cbn. split; [reflexivity|]. split; [|reflexivity].
    intros [|j] Hj; [contradiction | reflexivity].
  - destruct (IH k ltac:(lia)) as (H1 & H2 & H3).
    split; [exact H1|]. split.
    + intros [|j] Hj; [reflexivity|]. cbn. apply H2. lia.
    + cbn [firstn skipn app]. cbn [List.length]. f_equal. exact H3.
Qed.

Lemma js_index_Some {A : Type} (l : list A) (i : Z) (a : A) :
  js_index l i = Some a <-> 0 <= i /\ nth_error l (Z.to_nat i) = Some a.
Proof.
  unfold js_index. destruct (Z.ltb_spec i 0); split.
  - discriminate.
  - intros [H0 _]. lia.
  - auto.
  - intros [_ E]. exact E.
Qed.

Lemma js_index_length {A : Type} (l : list A) (i : Z) (a : A) :
  js_index l i = Some a -> 0 <= i < Z.of_nat (List.length l).
Proof.
  intros H. apply js_index_Some in H. destruct H as [H0 E].
  pose proof (proj1 (nth_error_Some l (Z.to_nat i)) ltac:(congruence)). lia.
Qed.

Lemma js_index_replace {A : Type} (l : list A) (i : Z) (v : A) :
  0 <= i < Z.of_nat (List.length l) ->
  js_index (firstn (Z.to_nat i) l ++ v :: skipn (S (Z.to_nat i)) l) i = Some v
  /\ (forall j, j <> i ->
        js_index (firstn (Z.to_nat i) l ++ v :: skipn (S (Z.to_nat i)) l) j
        = js_index l j).
Proof.
  intros Hi.
  destruct (nth_error_replace l (Z.to_nat i) v ltac:(lia)) as (H1 & H2 & _).
  unfold js_index. split.
  - destruct (Z.ltb_spec i 0); [lia | exact H1].
  - intros j Hj. destruct (Z.ltb_spec j 0); [reflexivity|]. apply H2. lia.
Qed.

(** X11. [updateDefenseCell(x, y, state)] and [updateAttackCell(x, y,
    state)] at a cell that the board has: afterwards that cell reads
    [state], every other cell reads what it read before, the rows keep
    their lengths, and nothing but that board changes. *)
Theorem updateCell_inside (s : GameState) (x y : Z) (state : string)
  (board : list (list Cell)) (row : list Cell)
  (Hrow : js_index board y = Some row)
  (Hx : 0 <= x < Z.of_nat (List.length row)) :
  cellAt (assignCell board x y state) x y = Some (Some state)
  /\ (forall x' y', (x', y') <> (x, y) ->
        cellAt (assignCell board x y state) x' y' = cellAt board x' y')
  /\ map (@List.length Cell) (assignCell board x y state)
     = map (@List.length Cell) board
  /\ (defenseBoard (game s) = board ->
      defenseBoard (game (updateDefenseCell x y state s)) = assignCell board x y state
      /\ attackBoard (game (updateDefenseCell x y state s)) = attackBoard (game s)
      /\ placement (updateDefenseCell x y state s) = placement s)
  /\ (attackBoard (game s) = board ->
      attackBoard (game (updateAttackCell x y state s)) = assignCell board x y state
      /\ defenseBoard (game (updateAttackCell x y state s)) = defenseBoard (game s)
      /\ placement (updateAttackCell x y state s) = placement s).
Proof.
  pose proof (js_index_length _ _ _ Hrow) as Hy.
  destruct (js_index_replace board y (js_assign row x state) Hy) as [Y1 Y2].
  assert (A : js_assign row x state
              = (firstn (Z.to_nat x) row ++ Some state :: skipn (S (Z.to_nat x)) row)%list).
  { unfold js_assign.
    destruct (Z.ltb_spec x 0); [lia|].
    destruct (Z.ltb_spec x (Z.of_nat (List.length row))); [reflexivity | lia]. }
  destruct (js_index_replace row x (Some state) Hx) as [X1 X2].
  unfold assignCell. rewrite Hrow.
  split; [|split; [|split; [|split]]].
  - unfold cellAt. rewrite Y1, A. exact X1.
  - intros x' y' Hne. unfold cellAt.
    destruct (Z.eq_dec y' y) as [->|Hy'].
    + rewrite Y1, Hrow, A. apply X2. congruence.
    + rewrite Y2 by exact Hy'. reflexivity.
  - apply js_index_Some in Hrow. destruct Hrow as [_ Hn].
    apply nth_error_split in Hn. destruct Hn as (l1 & l2 & -> & Hl1).
    rewrite <- Hl1.
    rewrite firstn_app, firstn_all, Nat.sub_diag, app_nil_r.
    change (S (List.length l1)) with (1 + List.length l1)%nat.
    rewrite <- skipn_skipn, skipn_app, skipn_all, Nat.sub_diag. cbn [skipn app].
    rewrite !map_app. cbn [map]. do 2 f_equal.
    rewrite A.
    destruct (nth_error_replace row (Z.to_nat x) (Some state) ltac:(lia)) as (_ & _ & L).
    exact L.
  - intros <-. unfold updateDefenseCell, assignCell. cbn. rewrite Hrow. auto.
  - intros <-. unfold updateAttackCell, assignCell. cbn. rewrite Hrow. auto.
Qed.

Lemma updateCell_inside_witness :
  js_index (defenseBoard (game sampleState)) 4 = Some (repeat (Some "empty") 10)
  /\ 0 <= 3 < Z.of_nat (List.length (repeat (Some "empty") 10))
  /\ cellAt (defenseBoard (game (updateDefenseCell 3 4 "hit" sampleState))) 3 4
     = Some (Some "hit").
Proof.
  assert (Hrow : js_index (defenseBoard (game sampleState)) 4
                 = Some (repeat (Some "empty") 10)) by reflexivity.
  assert (Hx : 0 <= 3 < Z.of_nat (List.length (repeat (Some "empty") 10)))
    by (cbn; lia).
  split; [exact Hrow|]. split; [exact Hx|].
  destruct (updateCell_inside sampleState 3 4 "hit" _ _ Hrow Hx)
    as (H1 & _ & _ & H4 & _).
  destruct (H4 eq_refl) as [-> _]. exact H1.
Defined.

(** X12. The same writes outside the board: when the board has no row
    at index [y] (in particular before [initDefenseBoard()], when the
    board is empty) the state does not change; when the row is there and
    [x] is past its end and an array index (x < 2^32 - 1), the row grows
    to [x + 1] cells, the cells in between being holes; when [x] is
    2^32 - 1 or more, the row keeps its cells and its length. *)
Theorem updateCell_outside (s : GameState) (x y : Z) (state : string) :
  (js_index (defenseBoard (game s)) y = None ->
   updateDefenseCell x y state s = s)
  /\ (js_index (attackBoard (game s)) y = None ->
      updateAttackCell x y state s = s)
  /\ (forall row,
        js_index (defenseBoard (game s)) y = Some row ->
        Z.of_nat (List.length row) <= x < 4294967295 ->
        exists row',
          js_index (defenseBoard (game (updateDefenseCell x y state s))) y = Some row'
          /\ Z.of_nat (List.length row') = x + 1
          /\ js_index row' x = Some (Some state)
          /\ (forall i, 0 <= i < Z.of_nat (List.length row) ->
                js_index row' i = js_index row i)
          /\ forall i, Z.of_nat (List.length row) <= i < x -> js_index row' i = Some None)
  /\ (forall row,
        js_index (defenseBoard (game s)) y = Some row ->
        Z.of_nat (List.length row) <= x -> 4294967295 <= x ->
        js_index (defenseBoard (game (updateDefenseCell x y state s))) y = Some row).
Proof.
  split; [|split; [|split]].
  - intros H. destruct s as [cs pn pid mid bs p [ct mc ys es db ab cl] t].
    unfold updateDefenseCell, assignCell. cbn in *. rewrite H. reflexivity.
  - intros H. destruct s as [cs pn pid mid bs p [ct mc ys es db ab cl] t].
    unfold updateAttackCell, assignCell. cbn in *. rewrite H. reflexivity.
  - intros row Hrow Hx.
    pose proof (js_index_length _ _ _ Hrow) as Hy.
    destruct (js_index_replace (defenseBoard (game s)) y (js_assign row x state) Hy)
      as [Y1 _].
    exists (js_assign row x state).
    unfold updateDefenseCell, assignCell. cbn. rewrite Hrow.
    split; [exact Y1|].
    assert (A : js_assign row x state
                = (row ++ repeat None (Z.to_nat x - List.length row) ++ [Some state])%list).
    { unfold js_assign.
      destruct (Z.ltb_spec x 0); [lia|].
      destruct (Z.ltb_spec x (Z.of_nat (List.length row))); [lia|].
      destruct (Z.ltb_spec x 4294967295); [reflexivity | lia]. }
    rewrite A. split; [|split; [|split]].
    + rewrite !length_app, repeat_length. cbn. lia.
    + unfold js_index. destruct (Z.ltb_spec x 0); [lia|].
      rewrite nth_error_app2 by lia.
      rewrite nth_error_app2 by (rewrite repeat_length; lia).
      rewrite repeat_length.
      replace (Z.to_nat x - List.length row - (Z.to_nat x - List.length row))%nat
        with 0%nat by lia.
      reflexivity.
    + intros i Hi. unfold js_index. destruct (Z.ltb_spec i 0); [lia|].
      rewrite nth_error_app1 by lia. reflexivity.
    + intros i Hi. unfold js_index. destruct (Z.ltb_spec i 0); [lia|].
      rewrite nth_error_app2 by lia.
      rewrite nth_error_app1 by (rewrite repeat_length; lia).
      rewrite nth_error_repeat by lia. reflexivity.
  - intros row Hrow Hx Hbig.
    pose proof (js_index_length _ _ _ Hrow) as Hy.
    destruct (js_index_replace (defenseBoard (game s)) y (js_assign row x state) Hy)
      as [Y1 _].
    unfold updateDefenseCell, assignCell. cbn. rewrite Hrow.
    etransitivity; [exact Y1|]. f_equal.
    unfold js_assign.
    destruct (Z.ltb_spec x 0); [reflexivity|].
    destruct (Z.ltb_spec x (Z.of_nat (List.length row))); [lia|].
    destruct (Z.ltb_spec x 4294967295); [lia | reflexivity].
Qed.

Lemma updateCell_outside_witness :
  js_index (defenseBoard (game GameState0)) 4 = None
  /\ updateDefenseCell 3 4 "hit" GameState0 = GameState0
  /\ js_index (defenseBoard (game sampleState)) 4 = Some (repeat (Some "empty") 10)
  /\ exists row',
       js_index (defenseBoard (game (updateDefenseCell 12 4 "hit" sampleState))) 4
       = Some row'
       /\ Z.of_nat (List.length row') = 13
       /\ js_index row' 12 = Some (Some "hit")
       /\ js_index row' 11 = Some None.
Proof.
  split; [reflexivity|].
  split; [apply (proj1 (updateCell_outside GameState0 3 4 "hit")); reflexivity|].
  assert (Hrow : js_index (defenseBoard (game sampleState)) 4
                 = Some (repeat (Some "empty") 10)) by reflexivity.
  split; [exact Hrow|].
  destruct (proj1 (proj2 (proj2 (updateCell_outside sampleState 12 4 "hit")))
              _ Hrow ltac:(cbn; lia))
    as (row' & H1 & H2 & H3 & _ & H5).
  exists row'. split; [exact H1|]. split; [exact H2|]. split; [exact H3|].
  apply H5. cbn. lia.
Defined.

(** ** The coordinate codec on every row *)

Lemma allDigits_string_of_uint (d : Decimal.uint) :
  allDigits (NilEmpty.string_of_uint d) = true.
Proof. induction d; cbn; auto. Qed.

Lemma digitsValue_of_uint_acc (d : Decimal.uint) :
  forall p, digitsValue (Z.pos p) (NilEmpty.string_of_uint d)
            = Z.pos (Pos.of_uint_acc d p).
Proof.
  induction d; intros p; cbn [NilEmpty.string_of_uint digitsValue Pos.of_uint_acc];
    [reflexivity|..];
    match goal with
    | |- digitsValue ?a _ = _ =>
        match goal with
        | |- _ = Z.pos (Pos.of_uint_acc _ ?q) =>
            replace a with (Z.pos q) by (vm_compute charCode; lia)
        end
    end; apply IHd.
Qed.

Lemma digitsValue_of_uint (d : Decimal.uint) :
  digitsValue 0 (NilEmpty.string_of_uint d) = Z.of_N (Pos.of_uint d).
Proof.
  induction d; cbn [NilEmpty.string_of_uint digitsValue Pos.of_uint];
    [reflexivity | exact IHd | ..];
    match goal with
    | |- digitsValue ?a _ = Z.of_N (N.pos (Pos.of_uint_acc _ ?q)) =>
        change a with (Z.pos q)
    end; apply digitsValue_of_uint_acc.
Qed.

Lemma numberToString_nonneg (n : Z) :
  0 <= n ->
  exists c rest,
    numberToString n = String c rest
    /\ allDigits (String c rest) = true
    /\ parseInt (String c rest) = n.
Proof.
  intros Hn. unfold numberToString.
  destruct n as [|p|p]; [exists "0"%char, EmptyString; auto | | lia].
  cbn [Z.to_int NilZero.string_of_int].
  pose proof (DecimalPos.Unsigned.to_uint_nonnil p) as Hnil.
  pose proof (DecimalPos.Unsigned.of_to p) as Hof.
  assert (E : NilZero.string_of_uint (Pos.to_uint p)
              = NilEmpty.string_of_uint (Pos.to_uint p)).
  { unfold NilZero.string_of_uint. destruct (Pos.to_uint p); congruence. }
  rewrite E.
  pose proof (allDigits_string_of_uint (Pos.to_uint p)) as Ha.
  pose proof (digitsValue_of_uint (Pos.to_uint p)) as Hv.
  rewrite Hof in Hv. cbn [Z.of_N] in Hv.
  destruct (NilEmpty.string_of_uint (Pos.to_uint p)) as [|c rest] eqn:S.
  - destruct (Pos.to_uint p); try discriminate S. congruence.
  - exists c, rest. auto.
Qed.

Lemma parseCoordinate_letter_digits (c d : ascii) (rest : string) :
  isLetterAJ c = true -> allDigits (String d rest) = true ->
  parseCoordinate (String c (String d rest))
  = Some (mkPos (charCode (upperChar c) - 65) (parseInt (String d rest) - 1)).
Proof.
  intros Hc Hd. unfold parseCoordinate, matchCoordinate.
  rewrite Hc, Hd. reflexivity.
Qed.

(** X13. The round trip of the coordinate codec holds beyond the ten rows
    of the board, as far as the numbers of the code are exact: for a
    column x in 0..9 and a row y with -1 <= y < 2^53,
    [parseCoordinate(formatCoordinate(x, y))] returns exactly [{x, y}]. *)
Theorem parseCoordinate_formatCoordinate_any_row (x y : Z)
  (Hx : 0 <= x <= 9) (Hy : -1 <= y < 9007199254740992) :
  parseCoordinate (formatCoordinate x y) = Some (mkPos x y).
Proof.
  destruct (numberToString_nonneg (y + 1) ltac:(lia)) as (d & rest & E & Ha & Hv).
  unfold formatCoordinate. rewrite E. cbn [append].
  pose proof (digit_cases x Hx) as Ex. cbn in Ex.
  repeat (destruct Ex as [<-|Ex];
          [rewrite parseCoordinate_letter_digits by (exact Ha || reflexivity);
           rewrite Hv; replace (y + 1 - 1) with y by lia; reflexivity|]).
  destruct Ex.
Qed.

Lemma parseCoordinate_formatCoordinate_any_row_witness :
  0 <= 3 <= 9 /\ -1 <= 122 < 9007199254740992
  /\ formatCoordinate 3 122 = "D123"
  /\ parseCoordinate (formatCoordinate 3 122) = Some (mkPos 3 122).
Proof.
  split; [lia|]. split; [lia|]. split; [reflexivity|].
  apply (parseCoordinate_formatCoordinate_any_row 3 122); lia.
Defined.

Lemma digitsValue_nonneg (s : string) :
  forall acc, 0 <= acc -> allDigits s = true -> 0 <= digitsValue acc s.
Proof.
  induction s as [|c rest IH]; intros acc Hacc Hd; cbn in *; [exact Hacc|].
  apply andb_true_iff in Hd. destruct Hd as [Hc Hrest].
  apply IH; [|exact Hrest].
  unfold isDigit in Hc. apply andb_true_iff in Hc. lia.
Qed.

Lemma letter_column (c : ascii) :
  isLetterAJ c = true ->
  0 <= charCode (upperChar c) - 65 <= 9
  /\ isLetterAJ (upperChar c) = true
  /\ upperChar (upperChar c) = upperChar c.
Proof.
  destruct c as [[] [] [] [] [] [] [] []]; vm_compute;
    try discriminate; intros _; repeat split; discriminate.
Qed.

Lemma digitsValue_upper (s : string) :
  forall acc, 0 <= acc -> allDigits s = true ->
    digitsValue acc s < (acc + 1) * 10 ^ Z.of_nat (String.length s).
Proof.
  induction s as [|c rest IH]; intros acc Hacc Hd; cbn [digitsValue String.length].
  - cbn. lia.
  - cbn [allDigits] in Hd. apply andb_true_iff in Hd. destruct Hd as [Hc Hrest].
    unfold isDigit in Hc. apply andb_true_iff in Hc.
    rewrite Nat2Z.inj_succ, Z.pow_succ_r by lia.
    specialize (IH (acc * 10 + (charCode c - 48)) ltac:(lia) Hrest).
    assert (0 < 10 ^ Z.of_nat (String.length rest)) by (apply Z.pow_pos_nonneg; lia).
    nia.
Qed.

(** X14. What [parseCoordinate] accepts and returns, for a text of at
    most 16 characters (the number then has at most 15 digits and is
    exact in the code): the result is [null] unless the text is one
    letter of A-J, in either case, followed by at least one decimal
    digit; when it is, the column is in 0..9 and is the same for the
    lower-case and the upper-case letter, and the row is the number
    minus 1, which is at least -1 and is not checked against the board:
    it goes up to 999999999999998. *)
Theorem parseCoordinate_result (coord : string) (p : Pos)
  (Hlen : (String.length coord <= 16)%nat)
  (Hp : parseCoordinate coord = Some p) :
  (exists c d rest,
     coord = String c (String d rest)
     /\ isLetterAJ c = true /\ allDigits (String d rest) = true
     /\ p = mkPos (charCode (upperChar c) - 65) (parseInt (String d rest) - 1)
     /\ parseCoordinate (String (upperChar c) (String d rest)) = Some p)
  /\ 0 <= pos_x p <= 9
  /\ -1 <= pos_y p <= 999999999999998.
Proof.
  unfold parseCoordinate in Hp.
  destruct (matchCoordinate coord) as [[m1 m2]|] eqn:M; [|discriminate].
  unfold matchCoordinate in M.
  destruct coord as [|c [|d rest]]; try discriminate M.
  destruct (isLetterAJ c && allDigits (String d rest)) eqn:C; [|discriminate M].
  apply andb_true_iff in C. destruct C as [Hc Hd].
  injection M as <- <-. injection Hp as <-.
  destruct (letter_column c Hc) as (Hcol & Hup & Hidem).
  split; [|split].
  - exists c, d, rest. repeat split; try assumption.
    rewrite parseCoordinate_letter_digits by assumption.
    rewrite Hidem. reflexivity.
  - exact Hcol.
  - cbn [pos_y]. pose proof (digitsValue_nonneg (String d rest) 0 ltac:(lia) Hd).
    pose proof (digitsValue_upper (String d rest) 0 ltac:(lia) Hd) as U.
    assert (L : Z.of_nat (String.length (String d rest)) <= 15)
      by (cbn [String.length] in Hlen |- *; lia).
    assert (P : 10 ^ Z.of_nat (String.length (String d rest)) <= 10 ^ 15)
      by (apply Z.pow_le_mono_r; lia).
    change (10 ^ 15) with 1000000000000000 in P.
    unfold parseInt. lia.
Qed.

Lemma parseCoordinate_result_witness :
  (String.length "c25" <= 16)%nat
  /\ parseCoordinate "c25" = Some (mkPos 2 24)
  /\ parseCoordinate "C25" = Some (mkPos 2 24)
  /\ 0 <= pos_x (mkPos 2 24) <= 9.
Proof.
  assert (L : (String.length "c25" <= 16)%nat) by (cbn; lia).
  assert (H : parseCoordinate "c25" = Some (mkPos 2 24)) by reflexivity.
  split; [exact L|]. split; [exact H|]. split; [reflexivity|].
  exact (proj1 (proj2 (parseCoordinate_result "c25" (mkPos 2 24) L H))).
Defined.

(** ** Requests and the table of handlers *)

Lemma lookup_assignHandler (t : string) (h : Handler) (l : list (string * Handler)) :
  lookupHandler t (assignHandler t h l) = Some h
  /\ forall t', t' <> t ->
       lookupHandler t' (assignHandler t h l) = lookupHandler t' l.
Proof.
  induction l as [|[k h0] rest [IH1 IH2]]; cbn.
  - rewrite String.eqb_refl. split; [reflexivity|].
    intros t' Hne. destruct (String.eqb_spec t t'); [congruence | reflexivity].
  - destruct (String.eqb_spec k t) as [->|Hk]; cbn.
    + rewrite String.eqb_refl. split; [reflexivity|].
      intros t' Hne. destruct (String.eqb_spec t t'); [congruence | reflexivity].
    + destruct (String.eqb_spec k t) as [|_]; [contradiction|].
      split; [exact IH1|].
      intros t' Hne. destruct (String.eqb_spec k t'); [reflexivity|].
      apply IH2. exact Hne.
Qed.

Lemma send_closed (message : JsValue) (api : API) :
  ws api <> Some WebSocket_OPEN -> send message api = api.
Proof.
  intros H. unfold send. destruct (ws api) as [readyState|]; [|reflexivity].
  destruct (Z.eqb_spec readyState WebSocket_OPEN); [congruence | reflexivity].
Qed.

(** X15. While the socket is missing or not open, [findMatch] and
    [sendAttack] hand nothing to the socket; [findMatch] has
    nevertheless installed its handler for ['game_state'], and
    [sendAttack] its handler for ['attack_result'] when there was none. *)
Theorem requests_on_closed_socket (api : API)
  (Hclosed : ws api <> Some WebSocket_OPEN)
  (now : Z) (name : string) (gs : GameState) (matchIdArg coordinate : JsValue) :
  sent (findMatch now name api) = sent api
  /\ lookupHandler "game_state" (messageHandlers (findMatch now name api))
     = Some FindMatchHandler
  /\ sent (sendAttack gs matchIdArg coordinate api) = sent api
  /\ (lookupHandler "attack_result" (messageHandlers api) = None ->
      lookupHandler "attack_result"
        (messageHandlers (sendAttack gs matchIdArg coordinate api))
      = Some AttackHandler).
Proof.
  unfold findMatch, sendAttack.
  rewrite send_closed by exact Hclosed.
  split; [reflexivity|]. split; [apply lookup_assignHandler|].
  destruct (lookupHandler "attack_result" (messageHandlers api)) eqn:L;
    rewrite send_closed by exact Hclosed.
  - split; [reflexivity | discriminate].
  - split; [reflexivity|]. intros _. apply lookup_assignHandler.
Qed.

Lemma requests_on_closed_socket_witness :
  ws (mkAPI (Some 3) [] []) <> Some WebSocket_OPEN
  /\ sent (findMatch 1700000000000 "Ana" (mkAPI (Some 3) [] [])) = []
  /\ lookupHandler "game_state"
       (messageHandlers (findMatch 1700000000000 "Ana" (mkAPI (Some 3) [] [])))
     = Some FindMatchHandler.
Proof.
  assert (H : ws (mkAPI (Some 3) [] []) <> Some WebSocket_OPEN) by discriminate.
  split; [exact H|].
  destruct (requests_on_closed_socket _ H 1700000000000 "Ana" GameState0 JNull JNull)
    as (H1 & H2 & _).
  split; [exact H1 | exact H2].
Defined.

(** X16. What the requests do to the table of handlers and to the
    messages already sent: [findMatch] replaces whatever handler
    ['game_state'] had and leaves the other message types alone;
    [sendAttack] keeps a handler that ['attack_result'] already has and
    touches no other message type; both only append to the messages
    sent. *)
Theorem requests_keep_other_handlers (api : API) (now : Z) (name : string)
  (gs : GameState) (matchIdArg coordinate : JsValue) :
  lookupHandler "game_state" (messageHandlers (findMatch now name api))
  = Some FindMatchHandler
  /\ (forall t, t <> "game_state" ->
        lookupHandler t (messageHandlers (findMatch now name api))
        = lookupHandler t (messageHandlers api))
  /\ (forall h, lookupHandler "attack_result" (messageHandlers api) = Some h ->
        lookupHandler "attack_result"
          (messageHandlers (sendAttack gs matchIdArg coordinate api))
        = Some h)
  /\ (forall t, t <> "attack_result" ->
        lookupHandler t (messageHandlers (sendAttack gs matchIdArg coordinate api))
        = lookupHandler t (messageHandlers api))
  /\ sent (findMatch now name api)
     = (sent api ++ newMessages api (findMatch now name api))%list
  /\ sent (sendAttack gs matchIdArg coordinate api)
     = (sent api ++ newMessages api (sendAttack gs matchIdArg coordinate api))%list.
Proof.
  assert (S : forall message api', sent api' = sent api ->
                messageHandlers (send message api') = messageHandlers api'
                /\ sent (send message api')
                   = (sent api ++ newMessages api (send message api'))%list).
  { intros message api' E. unfold newMessages, send.
    destruct (ws api') as [readyState|].
    - destruct (readyState =? WebSocket_OPEN); cbn [sent messageHandlers].
      + split; [reflexivity|]. unfold push.
        rewrite E, skipn_app, skipn_all, Nat.sub_diag. reflexivity.
      + split; [reflexivity|]. rewrite E, skipn_all, app_nil_r. reflexivity.
    - split; [reflexivity|]. rewrite E, skipn_all, app_nil_r. reflexivity. }
  unfold findMatch, sendAttack.
  destruct (S (JObj [("type", JStr "join_game");
                     ("playerId", JStr ("player_" ++ numberToString now));
                     ("playerName", JStr name)])
              (on "game_state" FindMatchHandler api) eq_refl) as [F1 F2].
  rewrite F1.
  split; [apply lookup_assignHandler|].
  split; [intros t Ht; apply lookup_assignHandler; exact Ht|].
  destruct (lookupHandler "attack_result" (messageHandlers api)) as [h0|] eqn:L.
  - destruct (S (JObj [("type", JStr "attack"); ("gameId", matchId gs);
                       ("playerId", playerId gs); ("coordinate", coordinate)])
                api eq_refl) as [A1 A2].
    rewrite A1.
    split; [intros h [= <-]; exact L|].
    split; [reflexivity|]. split; [exact F2 | exact A2].
  - destruct (S (JObj [("type", JStr "attack"); ("gameId", matchId gs);
                       ("playerId", playerId gs); ("coordinate", coordinate)])
                (on "attack_result" AttackHandler api) eq_refl) as [A1 A2].
    rewrite A1.
    split; [intros h [=]|].
    split; [intros t Ht; apply lookup_assignHandler; exact Ht|].
    split; [exact F2 | exact A2].
Qed.

(** ** The duration of a game *)

Lemma padStart_twoDigits (k : Z) :
  0 <= k < 100 -> padStart (numberToString k) 2 "0" = twoDigits k.
Proof.
  intros Hk.
  assert (C : forallb (fun n => String.eqb
                                  (padStart (numberToString (Z.of_nat n)) 2 "0")
                                  (twoDigits (Z.of_nat n)))
                      (seq 0 100) = true) by (vm_compute; reflexivity).
  rewrite forallb_forall in C.
  specialize (C (Z.to_nat k)). rewrite Z2Nat.id in C by lia.
  apply String.eqb_eq, C, in_seq. lia.
Qed.

(** X17. [getGameDuration()] returns ['--:--'] until the timer has been
    both started and stopped: in a fresh state, after a start alone,
    after a stop alone, and whenever one of the two times is not set.
    Once [startGameTimer()] ran at time t1 and [stopGameTimer()] at time
    t2 (two time values of [Date], between -8.64e15 and 8.64e15
    milliseconds), with a whole number d of seconds between them and
    0 <= d < 6000, it returns the five characters MM:SS, the two digits
    of d / 60 and the two digits of d mod 60. *)
Theorem getGameDuration_format (s : GameState) (t1 t2 : Z)
  (Ht1 : -8640000000000000 <= t1 <= 8640000000000000)
  (Ht2 : -8640000000000000 <= t2 <= 8640000000000000)
  (Hd : 0 <= (t2 - t1) / 1000 < 6000) :
  getGameDuration (init s) = "--:--"
  /\ getGameDuration (startGameTimer t1 (init s)) = "--:--"
  /\ getGameDuration (stopGameTimer t2 (init s)) = "--:--"
  /\ (startTime (gameTimer s) = None \/ endTime (gameTimer s) = None ->
      getGameDuration s = "--:--")
  /\ (endTime (gameTimer s) = None ->
      getGameDuration (startGameTimer t1 s) = "--:--")
  /\ (startTime (gameTimer s) = None ->
      getGameDuration (stopGameTimer t2 s) = "--:--")
  /\ getGameDuration (stopGameTimer t2 (startGameTimer t1 s))
     = twoDigits ((t2 - t1) / 1000 / 60) ++ ":"
       ++ twoDigits (((t2 - t1) / 1000) mod 60)
  /\ String.length (getGameDuration (stopGameTimer t2 (startGameTimer t1 s)))
     = 5%nat.
Proof.
  split; [reflexivity|]. split; [reflexivity|]. split; [reflexivity|].
  split.
  { unfold getGameDuration. intros [-> | ->]; [reflexivity|].
    destruct (startTime (gameTimer s)); reflexivity. }
  split.
  { unfold getGameDuration, startGameTimer.
    cbn [gameTimer set_gameTimer startTime endTime]. intros ->. reflexivity. }
  split.
  { unfold getGameDuration, stopGameTimer.
    cbn [gameTimer set_gameTimer startTime endTime]. intros ->. reflexivity. }
  assert (E : getGameDuration (stopGameTimer t2 (startGameTimer t1 s))
              = twoDigits ((t2 - t1) / 1000 / 60) ++ ":"
                ++ twoDigits (((t2 - t1) / 1000) mod 60)).
  { unfold getGameDuration, stopGameTimer, startGameTimer.
    cbn [gameTimer set_gameTimer startTime endTime].
    set (d := (t2 - t1) / 1000) in *.
    rewrite Z.rem_mod_nonneg by lia.
    assert (Hm : 0 <= d / 60 < 100)
      by (split; [apply Z.div_pos; lia | apply Z.div_lt_upper_bound; lia]).
    assert (Hsec : 0 <= d mod 60 < 100)
      by (pose proof (Z.mod_pos_bound d 60 ltac:(lia)); lia).
    rewrite !padStart_twoDigits by assumption. reflexivity. }
  split; [exact E|]. rewrite E. reflexivity.
Qed.

Lemma getGameDuration_format_witness :
  -8640000000000000 <= 1700000000000 <= 8640000000000000
  /\ -8640000000000000 <= 1700000754321 <= 8640000000000000
  /\ 0 <= (1700000754321 - 1700000000000) / 1000 < 6000
  /\ getGameDuration (stopGameTimer 1700000754321 (init sampleState)) = "--:--"
  /\ getGameDuration (stopGameTimer 1700000754321
                        (startGameTimer 1700000000000 sampleState))
     = "12:34".
Proof.
  assert (H1 : -8640000000000000 <= 1700000000000 <= 8640000000000000) by lia.
  assert (H2 : -8640000000000000 <= 1700000754321 <= 8640000000000000) by lia.
  assert (H : 0 <= (1700000754321 - 1700000000000) / 1000 < 6000)
    by (vm_compute; split; [discriminate | reflexivity]).
  split; [exact H1|]. split; [exact H2|]. split; [exact H|].
  destruct (getGameDuration_format sampleState 1700000000000 1700000754321 H1 H2 H)
    as (_ & _ & E0 & _ & _ & _ & E & _).
  split; [exact E0|].
  rewrite E. vm_compute. reflexivity.
Defined.

(** ** The shape of the handshake token *)

Lemma sha1_length (msg : bytes) : List.length (hashlib.sha1 msg) = 20%nat.
Proof.
  unfold hashlib.sha1.
  destruct (fold_left hashlib.compress _ hashlib.initial) as [[[[h0 h1] h2] h3] h4].
  reflexivity.
Qed.

Lemma decode_length (b : bytes) : String.length (decode b) = List.length b.
Proof. induction b as [|n rest IH]; cbn; [reflexivity | rewrite IH; reflexivity]. Qed.

Lemma decode_app (a b : bytes) : decode (a ++ b)%list = decode a ++ decode b.
Proof. induction a as [|n rest IH]; cbn; [reflexivity | rewrite IH; reflexivity]. Qed.

Lemma b64encode_20 (l : bytes) :
  List.length l = 20%nat ->
  exists body, base64.b64encode l = (body ++ [base64.padChar])%list
               /\ List.length body = 27%nat.
Proof.
  intros H.
  do 20 (destruct l as [|? l]; [discriminate H|]).
  destruct l; [|discriminate H].
  cbn [base64.b64encode].
  eexists (_ :: _ :: _ :: _ :: _ :: _ :: _ :: _ :: _ :: _ :: _ :: _ :: _ :: _
           :: _ :: _ :: _ :: _ :: _ :: _ :: _ :: _ :: _ :: _ :: _ :: _ :: [_]).
  split; reflexivity.
Qed.

(** X18. For every key, the accept token that the handshake computes
    has 28 characters, the last of which is the padding character
    ['=']. *)
Theorem handshake_accept_shape (key : string) :
  String.length (handshake_accept key) = 28%nat
  /\ exists body, handshake_accept key = body ++ "=" /\ String.length body = 27%nat.
Proof.
  unfold handshake_accept.
  destruct (b64encode_20 (hashlib.sha1 (encode (key ++ guid))) (sha1_length _))
    as (body & E & L).
  rewrite E. split.
  - rewrite decode_length, length_app, L. reflexivity.
  - exists (decode body). rewrite decode_app, decode_length. auto.
Qed.

(** ** Reconnection *)

Lemma onSocketEvent_bounds (r : Reconnection) (e : SocketEvent) :
  0 <= maxReconnectAttempts r ->
  0 <= reconnectAttempts r <= maxReconnectAttempts r ->
  0 <= reconnectAttempts (onSocketEvent r e) <= maxReconnectAttempts r
  /\ maxReconnectAttempts (onSocketEvent r e) = maxReconnectAttempts r.
Proof.
  intros Hm Hr.
  destruct e; cbn; unfold _attemptReconnect;
    try destruct (Z.ltb_spec (reconnectAttempts r) (maxReconnectAttempts r));
    cbn; split; try reflexivity; lia.
Qed.

Lemma scheduledReconnects_failures (events : list SocketEvent) :
  Forall (fun e => e <> SocketOpened) events ->
  forall r,
    0 <= reconnectAttempts r <= maxReconnectAttempts r ->
    Z.of_nat (scheduledReconnects r events)
    = Z.min (Z.of_nat (List.length events))
            (maxReconnectAttempts r - reconnectAttempts r).
Proof.
  induction 1 as [|e rest He _ IH]; intros r Hr.
  - cbn. lia.
  - cbn [scheduledReconnects List.length].
    assert (S : onSocketEvent r e = fst (_attemptReconnect r))
      by (destruct e; [contradiction | reflexivity | reflexivity]).
    rewrite S.
    assert (C : (match e with
                 | SocketOpened => 0
                 | _ => if snd (_attemptReconnect r) then 1 else 0
                 end)%nat
                = (if snd (_attemptReconnect r) then 1 else 0)%nat)
      by (destruct e; [contradiction | reflexivity | reflexivity]).
    rewrite C. clear C S.
    unfold _attemptReconnect.
    destruct (Z.ltb_spec (reconnectAttempts r) (maxReconnectAttempts r));
      cbn [fst snd]; rewrite Nat2Z.inj_add, IH
        by (cbn [reconnectAttempts maxReconnectAttempts]; lia);
      cbn [reconnectAttempts maxReconnectAttempts]; lia.
Qed.

(** X19. Whatever the socket does, [reconnectAttempts] stays between 0
    and [maxReconnectAttempts] (5); and in a run of failures with no
    successful connection in between, exactly the first five calls of
    [_attemptReconnect()] schedule a new connection. *)
Theorem reconnectAttempts_bounded (events : list SocketEvent) :
  0 <= reconnectAttempts (fold_left onSocketEvent events Reconnection0) <= 5
  /\ maxReconnectAttempts (fold_left onSocketEvent events Reconnection0) = 5
  /\ (Forall (fun e => e <> SocketOpened) events ->
      Z.of_nat (scheduledReconnects Reconnection0 events)
      = Z.min (Z.of_nat (List.length events)) 5).
Proof.
  assert (G : forall r,
            maxReconnectAttempts r = 5 -> 0 <= reconnectAttempts r <= 5 ->
            0 <= reconnectAttempts (fold_left onSocketEvent events r) <= 5
            /\ maxReconnectAttempts (fold_left onSocketEvent events r) = 5).
  { induction events as [|e rest IH]; intros r Hm Hr; cbn [fold_left]; [auto|].
    destruct (onSocketEvent_bounds r e) as [B1 B2]; [lia | lia |].
    apply IH; [congruence | rewrite Hm in B1; exact B1]. }
  destruct (G Reconnection0 eq_refl) as [G1 G2]; [cbn; lia|].
  split; [exact G1|]. split; [exact G2|].
  intros Hf. rewrite (scheduledReconnects_failures events Hf Reconnection0) by (cbn; lia).
  reflexivity.
Qed.

Lemma reconnectAttempts_bounded_witness :
  Forall (fun e => e <> SocketOpened)
         [SocketClosed; InitRejected; SocketClosed; InitRejected; SocketClosed;
          InitRejected; SocketClosed]
  /\ scheduledReconnects Reconnection0
       [SocketClosed; InitRejected; SocketClosed; InitRejected; SocketClosed;
        InitRejected; SocketClosed] = 5%nat.
Proof.
  assert (F : Forall (fun e => e <> SocketOpened)
                [SocketClosed; InitRejected; SocketClosed; InitRejected;
                 SocketClosed; InitRejected; SocketClosed])
    by (repeat constructor; discriminate).
  split; [exact F|].
  pose proof (proj2 (proj2 (reconnectAttempts_bounded _)) F) as H.
  apply Nat2Z.inj. rewrite H. reflexivity.
Defined.
